(** * municipal-scraper: the case scraper [cases/search.js]

    A shallow embedding of the narrative parser [parseActions], of the
    download-marker bookkeeping of [getCase] and [downloadAction], and of
    the batch driver [getCases], together with the properties checked
    against the specification. *)

From Stdlib Require Import NArith ZArith String Ascii DecimalString DecimalNat Lia.
From stdpp Require Import base option list gmap.

Local Open Scope N_scope.

(** ** JavaScript strings

    A JavaScript string is a sequence of UTF-16 code units; a code unit is
    modelled as an [N].  Literals are written with [js]. *)

Definition jsstring := list N.

Fixpoint js (s : string) : jsstring :=
  match s with
  | EmptyString => []
  | String a r => N_of_ascii a :: js r
  end.

(** [LineTerminator]: LF, CR, LS, PS. *)
Definition is_line_terminator (c : N) : bool :=
  (c =? 10) || (c =? 13) || (c =? 8232) || (c =? 8233).

(** [WhiteSpace] and [LineTerminator], the set removed by
    [String.prototype.trim] and matched by the class escape [\s]. *)
Definition is_space (c : N) : bool :=
  (c =? 9) || (c =? 10) || (c =? 11) || (c =? 12) || (c =? 13) || (c =? 32)
  || (c =? 160) || (c =? 5760) || ((8192 <=? c) && (c <=? 8202))
  || (c =? 8232) || (c =? 8233) || (c =? 8239) || (c =? 8287)
  || (c =? 12288) || (c =? 65279).

Fixpoint drop_spaces (s : jsstring) : jsstring :=
  match s with
  | c :: r => if is_space c then drop_spaces r else s
  | [] => []
  end.

(** [s.trim()] *)
Definition trim (s : jsstring) : jsstring :=
  rev (drop_spaces (rev (drop_spaces s))).

(** [s.substring(i, e)] for [i <= e]. *)
Definition slice (s : jsstring) (i e : nat) : jsstring :=
  take (e - i) (drop i s).

(** Truthiness of a string: the empty string is the only falsy one. *)
Definition truthy (s : jsstring) : bool :=
  match s with [] => false | _ => true end.

(** Truthiness of a property that may be [undefined]. *)
Definition truthy_opt (o : option jsstring) : bool :=
  match o with Some s => truthy s | None => false end.

(** ** Regular expressions

    The fragment of ECMAScript regular expressions used by the program:
    anchors, literal characters, character classes, greedy [*] and [+]
    over a one-character atom, concatenation, alternation and capturing
    groups, with the flags [i] and [m].  Matching is by backtracking with
    a continuation, in the order of the ECMAScript semantics (left
    alternative first, longest repetition first). *)

Module Regex.

Inductive cls :=
| CSet (ranges : list (N * N))   (* [a-b...] *)
| CDot                           (* .  : anything but a line terminator *)
| CSpace.                        (* \s *)

Inductive regex :=
| Eps
| Bol                            (* ^ *)
| Eol                            (* $ *)
| One (c : cls)
| Star (c : cls)                 (* c*, greedy *)
| Plus (c : cls)                 (* c+, greedy *)
| Seq (r1 r2 : regex)
| Alt (r1 r2 : regex)
| Grp (n : nat) (r : regex).     (* n-th capturing group *)

Record flags := { ignoreCase : bool; multiline : bool }.

(** Simple case folding of the ASCII letters.  Every pattern character of
    the program is ASCII, and [Canonicalize] never maps a character above
    127 to one below 128, so folding the ASCII range decides the match. *)
Definition to_upper (c : N) : N :=
  if (97 <=? c) && (c <=? 122) then c - 32 else c.
Definition to_lower (c : N) : N :=
  if (65 <=? c) && (c <=? 90) then c + 32 else c.

Definition in_ranges (rs : list (N * N)) (c : N) : bool :=
  existsb (fun r => (fst r <=? c) && (c <=? snd r)) rs.

Definition cls_match (fl : flags) (k : cls) (c : N) : bool :=
  match k with
  | CSet rs =>
      if ignoreCase fl
      then in_ranges rs c || in_ranges rs (to_upper c) || in_ranges rs (to_lower c)
      else in_ranges rs c
  | CDot => negb (is_line_terminator c)
  | CSpace => is_space c
  end.

(** Length of the longest run of characters of class [k] at the head. *)
Fixpoint run (fl : flags) (k : cls) (s : jsstring) : nat :=
  match s with
  | c :: r => if cls_match fl k c then S (run fl k r) else 0
  | [] => 0
  end.

Definition captures := list (nat * (nat * nat)).
Definition result := (nat * captures)%type.
Definition cont := nat -> captures -> option result.

(** Greedy repetition: try the continuation after [lo + n] characters,
    then after one fewer, down to [lo]. *)
Fixpoint backoff (k : cont) (i lo n : nat) (caps : captures) : option result :=
  match k (i + lo + n)%nat caps with
  | Some r => Some r
  | None => match n with
            | O => None
            | S n' => backoff k i lo n' caps
            end
  end.

Definition at_bol (fl : flags) (s : jsstring) (i : nat) : bool :=
  match i with
  | O => true
  | S j => multiline fl &&
           match s !! j with Some c => is_line_terminator c | None => false end
  end.

Definition at_eol (fl : flags) (s : jsstring) (i : nat) : bool :=
  match s !! i with
  | None => Nat.eqb i (length s)
  | Some c => multiline fl && is_line_terminator c
  end.

Fixpoint rmatch (fl : flags) (s : jsstring) (r : regex)
         (i : nat) (caps : captures) (k : cont) : option result :=
  match r with
  | Eps => k i caps
  | Bol => if at_bol fl s i then k i caps else None
  | Eol => if at_eol fl s i then k i caps else None
  | One c =>
      match s !! i with
      | Some x => if cls_match fl c x then k (S i) caps else None
      | None => None
      end
  | Star c => backoff k i 0 (run fl c (drop i s)) caps
  | Plus c =>
      match run fl c (drop i s) with
      | O => None
      | S n => backoff k i 1 n caps
      end
  | Seq r1 r2 => rmatch fl s r1 i caps (fun j cs => rmatch fl s r2 j cs k)
  | Alt r1 r2 =>
      match rmatch fl s r1 i caps k with
      | Some res => Some res
      | None => rmatch fl s r2 i caps k
      end
  | Grp n r1 => rmatch fl s r1 i caps (fun j cs => k j ((n, (i, j)) :: cs))
  end.

(** One attempt at position [i]: the end of the match and the captures. *)
Definition match_at (fl : flags) (r : regex) (s : jsstring) (i : nat)
  : option result :=
  rmatch fl s r i [] (fun j cs => Some (j, cs)).

(** [RegExpBuiltinExec]: the first position from [i] on, up to the length
    of the string, at which the pattern matches; [n] counts the positions
    left to try. *)
Fixpoint search (fl : flags) (r : regex) (s : jsstring) (i n : nat)
  : option (nat * result) :=
  match match_at fl r s i with
  | Some res => Some (i, res)
  | None => match n with
            | O => None
            | S n' => search fl r s (S i) n'
            end
  end.

Definition exec_from (fl : flags) (r : regex) (s : jsstring) (i : nat)
  : option (nat * result) :=
  if (i <=? length s)%nat then search fl r s i (length s - i) else None.

(** The text of capture [n] of a successful match. *)
Definition capture (s : jsstring) (cs : captures) (n : nat) : option jsstring :=
  match List.find (fun e => Nat.eqb (fst e) n) cs with
  | Some (_, (a, b)) => Some (slice s a b)
  | None => None
  end.

(** [s.match(r)] for a pattern without the [g] flag: the captures of the
    first match. *)
Definition match_first (fl : flags) (r : regex) (s : jsstring)
  : option captures :=
  match exec_from fl r s 0 with
  | Some (_, (_, cs)) => Some cs
  | None => None
  end.

(** [s.match(r)] for a pattern with the [g] flag: the texts of all the
    matches, from left to right.  After an empty match [lastIndex] is
    advanced by one.  [fuel] bounds the number of iterations. *)
Fixpoint match_all_from (fl : flags) (r : regex) (s : jsstring)
         (lastIndex fuel : nat) : list jsstring :=
  match fuel with
  | O => []
  | S fuel' =>
      match exec_from fl r s lastIndex with
      | None => []
      | Some (i, (e, _)) =>
          slice s i e ::
          match_all_from fl r s (if Nat.eqb e i then S e else e) fuel'
      end
  end.

(** Every iteration moves [lastIndex] forward and stops once it is past
    the end, so [length s + 2] iterations are enough
    (see [match_all_from_fuel]). *)
Definition match_all (fl : flags) (r : regex) (s : jsstring)
  : option (list jsstring) :=
  match match_all_from fl r s 0 (length s + 2) with
  | [] => None
  | l => Some l
  end.

(** Helpers to write patterns. *)
Definition chr (a : ascii) : regex :=
  One (CSet [(N_of_ascii a, N_of_ascii a)]).
Fixpoint lit (s : string) : regex :=
  match s with
  | EmptyString => Eps
  | String a EmptyString => chr a
  | String a r => Seq (chr a) (lit r)
  end.
Definition digit : cls := CSet [(48, 57)].
Fixpoint seqs (l : list regex) : regex :=
  match l with
  | [] => Eps
  | [r] => r
  | r :: l' => Seq r (seqs l')
  end.

End Regex.

(** ** The date library

    [moment(tok, 'MM/DD/YYYY').format('YYYY-MM-DD')] is a call into the
    external moment library.  [parseActions] is first defined over an
    arbitrary such function; [Moment.format_mdy] is a model of the
    library's forgiving (non-strict) parse for the format [MM/DD/YYYY],
    for the tokens that [parseActions] passes to it, which hold three
    numbers (for a text with fewer the library takes the missing parts
    from the current date, which is not modelled):
    [MM] and [DD] read the first one or two digits found, [YYYY] the first
    one to four, the separators skip to the next [/], a two-digit year is
    pivoted at 68, and a month or a day out of range makes the date
    invalid, which [format] renders as the text [Invalid date]. *)

Module Moment.

Definition is_digit (c : N) : bool := (48 <=? c) && (c <=? 57).

Fixpoint take_digits (n : nat) (s : jsstring) : jsstring * jsstring :=
  match n, s with
  | S n', c :: r =>
      if is_digit c
      then let '(d, rest) := take_digits n' r in (c :: d, rest)
      else ([], s)
  | _, _ => ([], s)
  end.

(** The first run of at most [n] digits found in [s], and what follows. *)
Fixpoint scan_digits (n : nat) (s : jsstring) : jsstring * jsstring :=
  match s with
  | c :: r => if is_digit c then take_digits n s else scan_digits n r
  | [] => ([], [])
  end.

(** What follows the first [/] of [s] ([s] itself when there is none). *)
Fixpoint skip_slash (s : jsstring) : option jsstring :=
  match s with
  | c :: r => if c =? 47 then Some r else skip_slash r
  | [] => None
  end.
Definition after_slash (s : jsstring) : jsstring :=
  match skip_slash s with Some r => r | None => s end.

Definition toInt (d : jsstring) : N :=
  fold_left (fun acc c => 10 * acc + (c - 48)) d 0.

Definition parseTwoDigitYear (y : N) : N :=
  y + (if 68 <? y then 1900 else 2000).

Definition isLeapYear (y : N) : bool :=
  ((y mod 4 =? 0) && negb (y mod 100 =? 0)) || (y mod 400 =? 0).

Definition daysInMonth (y m : N) : N :=
  if m =? 2 then (if isLeapYear y then 29 else 28)
  else if (m =? 4) || (m =? 6) || (m =? 9) || (m =? 11) then 30
  else 31.

(** The parsed (year, month, day), or [None] for an invalid date. *)
Definition parse_mdy (tok : jsstring) : option (N * N * N) :=
  let '(mm, r1) := scan_digits 2 tok in
  let '(dd, r2) := scan_digits 2 (after_slash r1) in
  let '(yy, _) := scan_digits 4 (after_slash r2) in
  let m := toInt mm in
  let d := toInt dd in
  let y := if Nat.eqb (length yy) 2 then parseTwoDigitYear (toInt yy)
           else toInt yy in
  if truthy mm && truthy dd && truthy yy
     && (1 <=? m) && (m <=? 12) && (1 <=? d) && (d <=? daysInMonth y m)
  then Some (y, m, d) else None.

Definition digit_of (n : N) : N := 48 + n mod 10.

Definition pad2 (n : N) : jsstring := [digit_of (n / 10); digit_of n].
Definition pad4 (n : N) : jsstring :=
  [digit_of (n / 1000); digit_of (n / 100); digit_of (n / 10); digit_of n].

Definition invalidDate : jsstring := js "Invalid date".

Definition format_mdy (tok : jsstring) : jsstring :=
  match parse_mdy tok with
  | Some (y, m, d) => pad4 y ++ [45] ++ pad2 m ++ [45] ++ pad2 d
  | None => invalidDate
  end.

End Moment.

(** ** The narrative parser [parseActions] *)

(** An action object; a field that was never assigned is [None]. *)
Record Action := mkAction {
  caseId : option jsstring;
  date : option jsstring;
  type : option jsstring;
  intiated : option jsstring;
  image : option jsstring;
  other : option jsstring;
  id : option jsstring          (* set by [getCase] when the action is stored *)
}.

(** The object literal [{}]. *)
Definition emptyAction : Action :=
  mkAction None None None None None None None.

Module Patterns.
Import Regex.

(** A date token: digits, a slash, digits, a slash, digits. *)
Definition dateRe : regex :=
  seqs [Plus digit; chr "/"; Plus digit; chr "/"; Plus digit].

(** [actionReg] (line 490), flags [gim]: group 1 is the start of a line or
    a date token, group 2 a greedy run of any characters but line
    terminators, group 3 a date token or the end of a line. *)
Definition actionReg : regex :=
  seqs [Grp 1 (Alt Bol dateRe); Grp 2 (Star CDot); Grp 3 (Alt dateRe Eol)].
Definition gim : flags := {| ignoreCase := true; multiline := true |}.
Definition fi : flags := {| ignoreCase := true; multiline := false |}.

(** The pattern of [beginning] (line 503), flag [i]: at the start of the
    string, group 1 a date token, group 2 the rest of the line. *)
Definition beginningRe : regex :=
  seqs [Bol; Grp 1 dateRe; Grp 2 (Star CDot)].

(** The pattern of [initiated] (line 504), flag [i]: at the start of the
    string, the words [this action initiated by], each followed by one
    [\s], then group 1 the rest of the line. *)
Definition initiatedRe : regex :=
  seqs [Bol; lit "this"; One CSpace; lit "action"; One CSpace;
        lit "initiated"; One CSpace; lit "by"; One CSpace;
        Grp 1 (Star CDot)].

(** The pattern of [image] (line 505), flag [i]: at the start of the
    string, [image\s+id\s+], then group 1 [[0-9a-z]+]. *)
Definition imageRe : regex :=
  seqs [Bol; lit "image"; Plus CSpace; lit "id"; Plus CSpace;
        Grp 1 (Plus (CSet [(48, 57); (97, 122)]))].

(** The pattern of the attachment id (line 349), flag [i]: [id=], group 1
    [[0-9a-z-_]+], then [&]. *)
Definition linkIdRe : regex :=
  seqs [lit "id=";
        Grp 1 (Plus (CSet [(48, 57); (97, 122); (45, 45); (95, 95)]));
        chr "&"].

(** [m[n]] for a successful match [m] of a pattern on [s]. *)
Definition group (s : jsstring) (cs : captures) (n : nat) : jsstring :=
  default [] (capture s cs n).

End Patterns.

Section ParseActions.

(** [tok => moment(tok, 'MM/DD/YYYY').format('YYYY-MM-DD')] *)
Variable formatDate : jsstring -> jsstring.

(** The state of the loop: the array [actions] and the accumulator
    [action]. *)
Definition pstate := (list Action * Action)%type.

(** The body of [parts.forEach(p => ...)]. *)
Definition parsePart (cid : jsstring) (st : pstate) (p0 : jsstring) : pstate :=
  let '(actions, action) := st in
  let p := trim p0 in
  if negb (truthy p) then st
  else
    match Regex.match_first Patterns.fi Patterns.beginningRe p with
    | Some b =>
        (actions ++ [action],
         {| caseId := Some cid;
            date := Some (formatDate (Patterns.group p b 1));
            type := Some (trim (Patterns.group p b 2));
            intiated := None; image := None; other := None; id := None |})
    | None =>
        match Regex.match_first Patterns.fi Patterns.initiatedRe p with
        | Some m =>
            (actions,
             mkAction (caseId action) (date action) (type action)
                      (Some (Patterns.group p m 1)) (image action) (other action)
                      (id action))
        | None =>
            match Regex.match_first Patterns.fi Patterns.imageRe p with
            | Some m =>
                (actions,
                 mkAction (caseId action) (date action) (type action)
                          (intiated action) (Some (Patterns.group p m 1))
                          (other action) (id action))
            | None =>
                (actions,
                 mkAction (caseId action) (date action) (type action)
                          (intiated action) (image action)
                          (Some (if truthy_opt (other action)
                                 then default [] (other action) ++ js " | " ++ p
                                 else p))
                          (id action))
            end
        end
    end.

(** [a => a.date] *)
Definition hasDate (a : Action) : bool := truthy_opt (date a).

Definition parseActions (text cid : jsstring) : list Action :=
  let actions :=
    match Regex.match_all Patterns.gim Patterns.actionReg text with
    | Some parts => fst (fold_left (parsePart cid) parts ([], emptyAction))
    | None => []
    end in
  List.filter hasDate actions.

End ParseActions.

(** ** The world of the scraper

    Files, the two in-memory stores, and the trace of what the program
    did, in order. *)

(** A row of the costs table. *)
Record Cost := mkCost {
  costCaseId : jsstring;
  incurredBy : jsstring;
  account : jsstring;
  costDate : jsstring;
  amount : jsstring
}.

(** The object [data] of [getCase]; [_.omit(data, ['costs', 'actions'])]
    is [flat] below. *)
Record CaseData := mkCaseData {
  dataCaseId : jsstring;
  summaryText : jsstring;
  parties : jsstring;
  arrestingOfficers : jsstring;
  schedule : jsstring;
  costs : list Cost;
  finances : jsstring;
  actionsRaw : jsstring;
  actions : list Action
}.

Definition flat (d : CaseData) : CaseData :=
  mkCaseData (dataCaseId d) (summaryText d) (parties d) (arrestingOfficers d)
             (schedule d) [] (finances d) (actionsRaw d) [].

(** What cheerio extracts from a response body: the texts and attributes
    the program reads, before any [trim]. *)
Record Page := mkPage {
  errorLength : nat;               (* $('.alert-danger,.alert-block').length *)
  errorText : jsstring;            (* its .text() *)
  panelSummary : jsstring;         (* #summary *)
  panelParty : jsstring;           (* #party_attorney *)
  panelOffense : jsstring;         (* #offense_info *)
  panelOfficers : jsstring;        (* #arresting_officers *)
  panelSchedule : jsstring;        (* #case_schedule *)
  costRows : list (list jsstring); (* #court_costs: the td texts of each row *)
  panelFinances : jsstring;        (* #financial_activity *)
  panelActions : jsstring;         (* #register_of_actions *)
  actionLinks : list (option jsstring)  (* href of each a of that panel *)
}.

Inductive Path :=
| PCaseDownloads                        (* .cache/case-downloads.json *)
| PActionDownloads                      (* .cache/action-downloads.json *)
| PRawHtml (cid : jsstring)             (* cases/<id>/case.<id>.html *)
| PCostsCsv (cid : jsstring)            (* cases/<id>/case.<id>.costs.csv *)
| PActionsCsv (cid : jsstring)          (* cases/<id>/case.<id>.actions.csv *)
| PCaseCsv (cid : jsstring)             (* cases/<id>/case.<id>.csv *)
| PCaseJson (cid : jsstring)            (* cases/<id>/case.<id>.json *)
| PAttachment (cid name : jsstring)     (* cases/<id>/actions/<name> *)
| PActionsStore                         (* cases/actions.csv *)
| PSummaryStore.                        (* cases/cases.csv *)

#[global] Instance Path_eq_dec : EqDecision Path.
Proof. solve_decision. Defined.


Inductive Content :=
| CBody (b : jsstring)
| CMarkers (m : gmap jsstring bool)
| CCosts (l : list Cost)
| CActions (l : list Action)
| CCase (d : CaseData)
| CSummaryStore (m : gmap jsstring CaseData)
| CActionsStore (m : gmap jsstring Action).

Inductive Url :=
| CasesUrl                      (* process.env.SCRAPER_CASES_URL *)
| LinkUrl (href : jsstring).

Record Request := mkRequest {
  ttl : Z;
  url : Url;
  form : option (jsstring * jsstring * jsstring)  (* case_type, case_year, case_id *)
}.

(** What the request library passes to the callback: an error alone, or a
    response with its status code and body. *)
Inductive Reply :=
| ReplyError (e : jsstring)
| ReplyOk (statusCode : Z) (body : jsstring).

(** The value a promise is rejected with. *)
Inductive Reason :=
| RRequestFailed                     (* the string 'Error requesting Case URL.' *)
| RStatus (code : Z)                 (* the string 'Status response of Case URL: <code>' *)
| RSearch (cid : jsstring)           (* new Error('Error searching for <cid>') *)
| RTransport (e : jsstring)          (* the error object of the request *)
| RFileStatus (code : Z) (href : jsstring).
                                     (* new Error('Error of status code ...') *)

Inductive LogMsg :=
| LogCaseNotFinished (cid : jsstring)
| LogNewExists (cid : jsstring)
| LogGetting (cid : jsstring)
| LogRequestError (e : jsstring)
| LogSearchBanner (banner : jsstring)
| LogSearchHint (cid : jsstring)
| LogActionNotFinished (id : jsstring)
| LogDownloaded (id cid : jsstring)
| LogCaught (r : Reason)
| LogDownloadFailed (id cid : jsstring)
| LogCsvMissing
| LogCsvEmpty
| LogCsvNoColumn
| LogNoInput.

Inductive Event :=
| EvWrite (p : Path) (c : Content)     (* fs.writeFileSync *)
| EvRequest (r : Request)              (* the call of request(...) *)
| EvParseActions (cid : jsstring)      (* the call of parseActions *)
| EvLog (m : LogMsg)                   (* console.error *)
| EvExit (code : Z).                   (* process.exit *)

Record World := mkWorld {
  fs : list (Path * Content);                (* latest write first *)
  summaryMem : gmap jsstring CaseData;       (* the variable [summary] *)
  actionsMem : gmap jsstring Action;   (* the variable [actions] *)
  trace : list Event                         (* oldest event first *)
}.

Definition readFile (w : World) (p : Path) : option Content :=
  snd <$> List.find (fun e => bool_decide (fst e = p)) (fs w).

Definition existsSync (w : World) (p : Path) : bool :=
  match readFile w p with Some _ => true | None => false end.

Definition emit (e : Event) (w : World) : World :=
  mkWorld (fs w) (summaryMem w) (actionsMem w) (trace w ++ [e]).

Definition writeFileSync (p : Path) (c : Content) (w : World) : World :=
  mkWorld ((p, c) :: fs w) (summaryMem w) (actionsMem w)
          (trace w ++ [EvWrite p c]).

Definition log (m : LogMsg) (w : World) : World := emit (EvLog m) w.

(** [JSON.parse(fs.readFileSync(p))] when the marker file exists, [{}]
    otherwise.  The marker files are written by this program only, with
    [true] or [false] for each key. *)
Definition loadMarkers (w : World) (p : Path) : gmap jsstring bool :=
  match readFile w p with
  | Some (CMarkers m) => m
  | _ => ∅
  end.

(** [markers[key]] as a condition. *)
Definition marked (m : gmap jsstring bool) (key : jsstring) : bool :=
  default false (m !! key).

(** The state of a promise; [resolve] and [reject] only act on a pending
    promise. *)
Inductive Promise (A : Type) :=
| Pending
| Resolved (v : A)
| Rejected (r : Reason).
Arguments Pending {A}.
Arguments Resolved {A} v.
Arguments Rejected {A} r.

Definition resolve {A} (v : A) (p : Promise A) : Promise A :=
  match p with Pending => Resolved v | _ => p end.
Definition reject {A} (r : Reason) (p : Promise A) : Promise A :=
  match p with Pending => Rejected r | _ => p end.

(** How the body of a callback ended. *)
Inductive Ending :=
| Completed                (* ran to its end *)
| Threw                    (* a TypeError was thrown; the rest did not run *)
| Killed.                  (* the process exited while the body was waiting *)

(** Who awaits [getCase]: [main] directly, or the loop of [getCases],
    whose [catch] ends the process. *)
Inductive Caller := Single | Batch.

Record Config := mkConfig {
  TTL : Z;                          (* line 62: 0 without cache, else the
                                       cache option in milliseconds *)
  argvNew : bool;                   (* --new *)
  argvTrace : bool;                 (* argv.trace || process.env.DEBUG *)
  SCRAPER_CASES_URL : option jsstring
}.

(** Decimal rendering of a number inside a template string. *)
Definition showZ (z : Z) : jsstring := js (NilZero.string_of_int (Z.to_int z)).
Definition showNat (n : nat) : jsstring := js (NilZero.string_of_uint (Nat.to_uint n)).

(** The text of a rejection value, and whether it is an [Error] object
    rather than a plain string. *)
Definition reasonText (r : Reason) : jsstring :=
  match r with
  | RRequestFailed => js "Error requesting Case URL."
  | RStatus code => js "Status response of Case URL: " ++ showZ code
  | RSearch cid => js "Error searching for " ++ cid
  | RTransport e => e
  | RFileStatus code href =>
      js "Error of status code " ++ [34] ++ showZ code ++ [34]
         ++ js " getting file " ++ href
  end.

Definition isErrorObject (r : Reason) : bool :=
  match r with
  | RRequestFailed | RStatus _ => false
  | RSearch _ | RTransport _ | RFileStatus _ _ => true
  end.

(** [s.replace(/(\s|\t)+/, ' ')]: the first run of white space becomes
    one space. *)
Fixpoint replaceFirstSpaces (s : jsstring) : jsstring :=
  match s with
  | c :: r => if is_space c then 32 :: drop_spaces r
              else c :: replaceFirstSpaces r
  | [] => []
  end.

(** ** The program *)

Section Program.

Variable formatDate : jsstring -> jsstring.
(** [body => cheerio.load(body)] followed by the queries of [getCase]. *)
Variable cheerio : jsstring -> Page.
(** The upstream server and the request cache: the reply to a request,
    given all that happened before. *)
Variable network : list Event -> Request -> Reply.
Variable cfg : Config.

(** The key [`${caseId}-${id}`]. *)
Definition actionKey (cid aid : jsstring) : jsstring := cid ++ js "-" ++ aid.

(** *** [downloadAction] *)

(** The variables of a call that is waiting for its reply. *)
Record ActionDownload := mkActionDownload {
  actionsDownloads : gmap jsstring bool;
  actionRequest : Request;
  action : option Action
}.

(** From the entry of [downloadAction] to the call of [request] (lines
    410 to 449). *)
Definition downloadActionStart (cid href aid : jsstring) (acts : list Action)
           (w : World) : World * ActionDownload :=
  let downloads := loadMarkers w PActionDownloads in
  let key := actionKey cid aid in
  let forced := marked downloads key in
  let actionTTL := if forced then 0%Z else TTL cfg in
  let w := if forced then log (LogActionNotFinished aid) w else w in
  let downloads := <[key := true]> downloads in
  let w := writeFileSync PActionDownloads (CMarkers downloads) w in
  let found :=
    List.find (fun a => bool_decide (caseId a = Some cid)
                        && bool_decide (image a = Some aid)) acts in
  let req := mkRequest actionTTL (LinkUrl href) None in
  (emit (EvRequest req) w, mkActionDownload downloads req found).

(** The name of the attachment file. *)
Definition attachmentName (found : option Action) (cid aid : jsstring)
  : jsstring :=
  (match found with
   | Some a => if truthy_opt (date a) then default [] (date a)
               else js "unknown-date-"
   | None => js "unknown-date-"
   end) ++ js "-" ++ cid ++ js "_" ++ aid ++ js ".pdf".

(** The callback of the request (lines 450 to 482). *)
Definition downloadActionCallback (cid href aid : jsstring)
           (d : ActionDownload) (w : World) : World * Promise unit :=
  match network (trace w) (actionRequest d) with
  | ReplyError e => (w, Rejected (RTransport e))
  | ReplyOk statusCode body =>
      if (300 <=? statusCode)%Z
      then (w, Rejected (RFileStatus statusCode href))
      else
        let downloads := <[actionKey cid aid := false]> (actionsDownloads d) in
        let w := writeFileSync PActionDownloads (CMarkers downloads) w in
        let w := writeFileSync
                   (PAttachment cid (attachmentName (action d) cid aid))
                   (CBody body) w in
        (w, Resolved tt)
  end.

Definition downloadAction (cid href aid : jsstring) (acts : list Action)
           (w : World) : World * Promise unit :=
  let '(w, d) := downloadActionStart cid href aid acts w in
  downloadActionCallback cid href aid d w.

(** *** [getCase] *)

(** [$error.length && $error.text()] *)
Definition hasBanner (page : Page) : bool :=
  negb (Nat.eqb (errorLength page) 0) && truthy (errorText page).

(** The two messages logged for a banner (lines 246 to 254). *)
Definition logBanner (cid : jsstring) (page : Page) (w : World) : World :=
  log (LogSearchHint cid)
      (log (LogSearchBanner (trim (replaceFirstSpaces (errorText page)))) w).

(** [a.match(/id=([0-9a-z-_]+)&/i)]: [None] is [null]. *)
Definition linkMatch (href : jsstring) : option jsstring :=
  match Regex.match_first Patterns.fi Patterns.linkIdRe href with
  | Some m => Some (Patterns.group href m 1)
  | None => None
  end.

(** Whether the process ends while the callback waits: the promise of
    [getCase] is already rejected and the [catch] of [getCases] runs
    [process.exit(1)] as soon as the callback yields. *)
Definition exitsWhileWaiting {A} (caller : Caller) (pr : Promise A) : bool :=
  match caller, pr with
  | Batch, Rejected _ => true
  | _, _ => false
  end.

(** The loop over [actionLinks] (lines 347 to 367). *)
Fixpoint downloadImages {A} (caller : Caller) (pr : Promise A)
         (cid : jsstring) (acts : list Action)
         (links : list (option jsstring)) (w : World) : World * Ending :=
  match links with
  | [] => (w, Completed)
  | a :: rest =>
      match a ≫= (fun href => pair href <$> linkMatch href) with
      | None => (w, Threw)       (* a.match(...) or null[1] throws *)
      | Some (href, aid) =>
          let '(w, d) := downloadActionStart cid href aid acts w in
          if exitsWhileWaiting caller pr then (w, Killed)
          else
            let '(w, res) := downloadActionCallback cid href aid d w in
            let w :=
              match res with
              | Rejected e =>
                  log (LogDownloadFailed aid cid) (log (LogCaught e) w)
              | _ => log (LogDownloaded aid cid) w
              end in
            downloadImages caller pr cid acts rest w
      end
  end.

(** [$($tds[n]).text().trim()] *)
Definition cell (tds : list jsstring) (n : nat) : jsstring :=
  trim (default [] (tds !! n)).

Definition parseCosts (cid : jsstring) (rows : list (list jsstring))
  : list Cost :=
  map (fun tds => mkCost cid (cell tds 0) (cell tds 1)
                         (formatDate (cell tds 2)) (cell tds 3)) rows.

(** [a.id = `${caseId}-${ai}`] *)
Definition withId (cid : jsstring) (ai : nat) (a : Action) : Action :=
  mkAction (caseId a) (date a) (type a) (intiated a) (image a) (other a)
           (Some (actionKey cid (showNat ai))).

(** [case_type], [case_year] and [case_id] of the form. *)
Definition caseForm (cid : jsstring) : jsstring * jsstring * jsstring :=
  (take 2 cid, take 2 (drop 2 cid), drop 4 cid).

(** Lines 369 to 398: the per-case files, then the two stores. *)
Definition saveCase (cid : jsstring) (data : CaseData) (w : World)
  : World * CaseData :=
  let w := writeFileSync (PCostsCsv cid) (CCosts (costs data)) w in
  let w := writeFileSync (PActionsCsv cid) (CActions (actions data)) w in
  let w := writeFileSync (PCaseCsv cid) (CCase (flat data)) w in
  let w := writeFileSync (PCaseJson cid) (CCase data) w in
  let stored := imap (withId cid) (actions data) in
  let amem :=
    fold_left (fun m a => <[default [] (id a) := a]> m) stored (actionsMem w) in
  let w := mkWorld (fs w) (summaryMem w) amem (trace w) in
  let w := writeFileSync PActionsStore (CActionsStore amem) w in
  let data := mkCaseData (dataCaseId data) (summaryText data) (parties data)
                         (arrestingOfficers data) (schedule data) (costs data)
                         (finances data) (actionsRaw data) stored in
  let smem := <[cid := flat data]> (summaryMem w) in
  let w := mkWorld (fs w) smem (actionsMem w) (trace w) in
  let w := writeFileSync PSummaryStore (CSummaryStore smem) w in
  (w, data).

(** The callback of the request of [getCase] (lines 223 to 401).  On an
    error the request library passes no response, so reading
    [response.statusCode] throws; [reject] does not leave the callback. *)
Definition getCaseCallback (caller : Caller) (cid : jsstring)
           (caseDownloads : gmap jsstring bool) (req : Request) (w : World)
  : World * Promise (option CaseData) * Ending :=
  match network (trace w) req with
  | ReplyError e =>
      (log (LogRequestError e) w, reject RRequestFailed Pending, Threw)
  | ReplyOk statusCode body =>
      let pr : Promise (option CaseData) :=
        if (300 <=? statusCode)%Z then reject (RStatus statusCode) Pending
        else Pending in
      let w := writeFileSync (PRawHtml cid) (CBody body) w in
      let page := cheerio body in
      let w := if hasBanner page then logBanner cid page w else w in
      let pr := if hasBanner page then reject (RSearch cid) pr else pr in
      let raw := trim (panelActions page) in
      let w := emit (EvParseActions cid) w in
      let data :=
        {| dataCaseId := cid;
           summaryText := trim (panelSummary page);
           parties := trim (panelOffense page);
           arrestingOfficers := trim (panelOfficers page);
           schedule := trim (panelSchedule page);
           costs := parseCosts cid (costRows page);
           finances := trim (panelFinances page);
           actionsRaw := raw;
           actions := parseActions formatDate raw cid |} in
      let caseDownloads := <[cid := false]> caseDownloads in
      let w := writeFileSync PCaseDownloads (CMarkers caseDownloads) w in
      match downloadImages caller pr cid (actions data) (actionLinks page) w with
      | (w, Completed) =>
          let '(w, data) := saveCase cid data w in
          (w, resolve (Some data) pr, Completed)
      | (w, ending) => (w, pr, ending)
      end
  end.

(** [getCase] (lines 160 to 404).  The directories made by [mkdirpSync]
    are not part of the model. *)
Definition getCase (caller : Caller) (cid : jsstring) (w : World)
  : World * Promise (option CaseData) * Ending :=
  let caseDownloads := loadMarkers w PCaseDownloads in
  let forced := marked caseDownloads cid in
  let caseTTL := if forced then 0%Z else TTL cfg in
  let w := if forced then log (LogCaseNotFinished cid) w else w in
  let caseDownloads := <[cid := true]> caseDownloads in
  let w := writeFileSync PCaseDownloads (CMarkers caseDownloads) w in
  if argvNew cfg && existsSync w (PRawHtml cid)
  then (log (LogNewExists cid) w, Resolved None, Completed)
  else
    let w := log (LogGetting cid) w in
    let req := mkRequest caseTTL CasesUrl (Some (caseForm cid)) in
    getCaseCallback caller cid caseDownloads req (emit (EvRequest req) w).

(** *** [getCases] and [main] *)

(** How a run of the program ends. *)
Inductive RunEnd :=
| Finished                 (* ran to the end *)
| Exited (code : Z)        (* process.exit(code) *)
| ConfigError              (* the throw of line 67, before [main] *)
| Stalled.                 (* an awaited promise never settles *)

(** The loop of lines 144 to 156 over the values of the column. *)
Fixpoint getCasesLoop (rows : list jsstring) (w : World) : World * RunEnd :=
  match rows with
  | [] => (w, Finished)
  | row :: rest =>
      if truthy row
      then
        match getCase Batch row w with
        | (w, Resolved _, _) => getCasesLoop rest w
        | (w, Rejected e, _) =>
            let w := if argvTrace cfg then log (LogCaught e) w else w in
            (emit (EvExit 1) w, Exited 1)
        | (w, Pending, _) => (w, Stalled)
        end
      else getCasesLoop rest w
  end.

(** [getCases]: [None] is a path at which there is no file; a row is the
    value of the column in that row, empty when the row has none. *)
Definition getCases (csv : option (list jsstring)) (w : World)
  : World * RunEnd :=
  match csv with
  | None => (emit (EvExit 1) (log LogCsvMissing w), Exited 1)
  | Some [] => (emit (EvExit 1) (log LogCsvEmpty w), Exited 1)
  | Some (first :: rest) =>
      if truthy first then getCasesLoop (first :: rest) w
      else (emit (EvExit 1) (log LogCsvNoColumn w), Exited 1)
  end.

Record Argv := mkArgv {
  argvCaseId : option jsstring;              (* --case-id *)
  argvCsv : option (option (list jsstring))  (* --csv, and what is there *)
}.

(** Lines 78 to 101: the stores are loaded from their files. *)
Definition loadStores (w : World) : World :=
  mkWorld (fs w)
          (match readFile w PSummaryStore with
           | Some (CSummaryStore m) => m | _ => ∅ end)
          (match readFile w PActionsStore with
           | Some (CActionsStore m) => m | _ => ∅ end)
          (trace w).

(** The whole script: the configuration check of line 66, the loading of
    the stores, then [main].  A rejection that reaches [main] is not
    handled there; the run is taken to go on to its end. *)
Definition program (argv : Argv) (w : World) : World * RunEnd :=
  if negb (truthy_opt (SCRAPER_CASES_URL cfg)) then (w, ConfigError)
  else
    let w := loadStores w in
    if truthy_opt (argvCaseId argv)
    then
      let '(w, pr, _) := getCase Single (default [] (argvCaseId argv)) w in
      (w, match pr with Pending => Stalled | _ => Finished end)
    else
      match argvCsv argv with
      | Some csv => getCases csv w
      | None => (emit (EvExit 1) (log LogNoInput w), Exited 1)
      end.

End Program.

Arguments downloadActionStart : simpl never.
Arguments downloadActionCallback : simpl never.
Arguments saveCase : simpl never.
Arguments getCaseCallback : simpl never.
Arguments getCase : simpl never.
Arguments parseActions : simpl never.

(** ** Examples *)

Definition exampleCaseId : jsstring := js "CR1912345".

(** The narrative of the example, on one line. *)
Definition narrativeOneLine : jsstring :=
  js "1/2/2020 Case Filed 1/5/2020 Answer Filed Image ID ab12".

(** The same narrative with one chunk per line. *)
Definition narrativeLines : jsstring :=
  js "1/2/2020 Case Filed" ++ [10] ++ js "1/5/2020 Answer Filed" ++ [10]
     ++ js "Image ID ab12".

(** A narrative whose first chunk begins with a date token that is not a
    calendar date. *)
Definition narrativeBadDate : jsstring :=
  js "13/45/2020 Bad" ++ [10] ++ js "1/5/2020 Answer Filed".

Definition caseFiled : Action :=
  mkAction (Some exampleCaseId) (Some (js "2020-01-02"))
           (Some (js "Case Filed")) None None None None.

Definition badDated : Action :=
  mkAction (Some exampleCaseId) (Some (js "Invalid date"))
           (Some (js "Bad")) None None None None.

(** The ISO text of a calendar date. *)
Definition isoDate (y m d : N) : jsstring :=
  Moment.pad4 y ++ js "-" ++ Moment.pad2 m ++ js "-" ++ Moment.pad2 d.

(** The match of [beginning] on the chunk [13/45/2020 Bad]. *)
Definition badDateMatch : Regex.captures :=
  [(2, (10, 14)); (1, (0, 10))]%nat.

(** The world before any run, and a configuration with the default cache
    time of one day. *)
Definition emptyWorld : World := mkWorld [] ∅ ∅ [].

Definition exampleConfig : Config :=
  mkConfig 86400000 false false (Some (js "https://courts.example/search")).

Definition exampleConfigNew : Config :=
  mkConfig 86400000 true false (Some (js "https://courts.example/search")).

Definition exampleConfigNoUrl : Config := mkConfig 86400000 false false None.

Definition emptyPage : Page := mkPage 0 [] [] [] [] [] [] [] [] [] [].

(** The page of a case that is not found: HTTP 200 with a banner. *)
Definition bannerPage : Page :=
  mkPage 1 (js "No case found") [] [] [] [] [] [] [] [] [].

(** A page with the narrative of the example and one attachment link. *)
Definition linkedPage : Page :=
  mkPage 0 [] [] [] [] [] [] [] [] narrativeLines
         [Some (js "/doc?id=ab12&t=1")].

(** A page whose first attachment link has no [id] parameter. *)
Definition oddLinkPage : Page :=
  mkPage 0 [] [] [] [] [] [] [] [] narrativeLines
         [Some (js "/doc?x=1"); Some (js "/doc?id=ab12&t=1")].

(** An upstream that names its pages in the body. *)
Definition exampleCheerio (body : jsstring) : Page :=
  if bool_decide (body = js "banner") then bannerPage
  else if bool_decide (body = js "linked") then linkedPage
  else if bool_decide (body = js "oddlink") then oddLinkPage
  else emptyPage.

(** An upstream that fails with status 500 for case 00001, shows the
    banner for 00002, an odd link for 00003, and the linked page for any
    other case; every attachment is served. *)
Definition exampleNetwork (_ : list Event) (r : Request) : Reply :=
  match url r, form r with
  | CasesUrl, Some (_, _, n) =>
      if bool_decide (n = js "00001") then ReplyOk 500 []
      else if bool_decide (n = js "00002") then ReplyOk 200 (js "banner")
      else if bool_decide (n = js "00003") then ReplyOk 200 (js "oddlink")
      else ReplyOk 200 (js "linked")
  | _, _ => ReplyOk 200 (js "%PDF")
  end.

Definition case1 : jsstring := js "CR1900001".
Definition case2 : jsstring := js "CR1900002".
Definition case3 : jsstring := js "CR1900003".
Definition case4 : jsstring := js "CR1900004".

(** A world in which the marker of case 4 was left set and its raw page
    is on disk. *)
Definition interruptedWorld : World :=
  mkWorld [(PCaseDownloads, CMarkers {[case4 := true]});
           (PRawHtml case4, CBody (js "linked"))] ∅ ∅ [].

(** The requests of a trace, in order. *)
Definition requests (t : list Event) : list Request :=
  omap (fun e => match e with EvRequest r => Some r | _ => None end) t.

(** The files written in a trace, in order. *)
Definition written (t : list Event) : list Path :=
  omap (fun e => match e with EvWrite p _ => Some p | _ => None end) t.

(** *** Points of a run of [getCase] *)

(** The request of [getCase] in world [w]. *)
Definition caseRequest (cfg : Config) (cid : jsstring) (w : World) : Request :=
  mkRequest (if marked (loadMarkers w PCaseDownloads) cid then 0%Z else TTL cfg)
            CasesUrl (Some (caseForm cid)).

(** What [getCase] does from its entry in world [w] to the call of
    [request], when it does not return early. *)
Definition caseStartEvents (cfg : Config) (cid : jsstring) (w : World)
  : list Event :=
  (if marked (loadMarkers w PCaseDownloads) cid
   then [EvLog (LogCaseNotFinished cid)] else [])
  ++ [EvWrite PCaseDownloads
        (CMarkers (<[cid := true]> (loadMarkers w PCaseDownloads)));
      EvLog (LogGetting cid);
      EvRequest (caseRequest cfg cid w)].

(** The world in which the reply arrives. *)
Definition caseStarted (cfg : Config) (cid : jsstring) (w : World) : World :=
  mkWorld ((PCaseDownloads,
            CMarkers (<[cid := true]> (loadMarkers w PCaseDownloads))) :: fs w)
          (summaryMem w) (actionsMem w)
          (trace w ++ caseStartEvents cfg cid w).

(** The two log events of a banner. *)
Definition bannerEvents (cid : jsstring) (page : Page) : list Event :=
  if hasBanner page
  then [EvLog (LogSearchBanner (trim (replaceFirstSpaces (errorText page))));
        EvLog (LogSearchHint cid)]
  else [].

(** The request of [downloadAction] in world [w]. *)
Definition actionRequestOf (cfg : Config) (cid href aid : jsstring) (w : World)
  : Request :=
  mkRequest (if marked (loadMarkers w PActionDownloads) (actionKey cid aid)
             then 0%Z else TTL cfg)
            (LinkUrl href) None.

Definition actionStartEvents (cfg : Config) (cid href aid : jsstring)
           (w : World) : list Event :=
  (if marked (loadMarkers w PActionDownloads) (actionKey cid aid)
   then [EvLog (LogActionNotFinished aid)] else [])
  ++ [EvWrite PActionDownloads
        (CMarkers (<[actionKey cid aid := true]>
                     (loadMarkers w PActionDownloads)));
      EvRequest (actionRequestOf cfg cid href aid w)].

(** Events of a trace. *)
Definition clearsMarker (p : Path) (key : jsstring) (e : Event) : bool :=
  match e with
  | EvWrite q (CMarkers m) => bool_decide (q = p) && negb (marked m key)
  | _ => false
  end.

Definition writesTo (p : Path) (e : Event) : bool :=
  match e with
  | EvWrite q _ => bool_decide (q = p)
  | _ => false
  end.

Definition isParse (e : Event) : bool :=
  match e with EvParseActions _ => true | _ => false end.

(** The index of the first event of [t] that satisfies [f]. *)
Fixpoint position (f : Event -> bool) (t : list Event) : option nat :=
  match t with
  | [] => None
  | e :: r => if f e then Some O else S <$> position f r
  end.

(** The trace of [w'] continues the trace of [w]. *)
Definition extends (w w' : World) : Prop := exists t, trace w' = trace w ++ t.

(** A property [P] of the actions that have a date; the loop of
    [parseActions] keeps it for the pushed actions and for the
    accumulator. *)
Definition dated (P : Action -> Prop) (a : Action) : Prop :=
  hasDate a = true -> P a.

(** *** Points of a run of [parseActions] *)

(** The chunks of a narrative: the result of [text.match(actionReg)],
    with no chunk for [null]. *)
Definition chunks (text : jsstring) : list jsstring :=
  default [] (Regex.match_all Patterns.gim Patterns.actionReg text).

(** Whether a chunk opens an action: it is not blank and [beginning]
    matches it. *)
Definition opensAction (p : jsstring) : bool :=
  truthy (trim p)
  && match Regex.match_first Patterns.fi Patterns.beginningRe (trim p) with
     | Some _ => true
     | None => false
     end.

(** The loop of [parseActions] over given chunks, and the final filter. *)
Definition parseChunks (formatDate : jsstring -> jsstring) (cid : jsstring)
           (parts : list jsstring) : list Action :=
  List.filter hasDate
    (fst (fold_left (parsePart formatDate cid) parts ([], emptyAction))).

(** A narrative that starts with a line before any date. *)
Definition narrativeLeading : jsstring :=
  js "This action initiated by Plaintiff" ++ [10]
     ++ js "1/1/2021 Summons Issued" ++ [10] ++ js "2/2/2021 Hearing".

Definition summonsIssued : Action :=
  mkAction (Some exampleCaseId) (Some (js "2021-01-01"))
           (Some (js "Summons Issued")) None None None None.

(** An attachment link from which an id can be read. *)
Definition wellFormedLink (a : option jsstring) : bool :=
  match a with
  | Some href => match linkMatch href with Some _ => true | None => false end
  | None => false
  end.

(** Whether the request of [getCase] in world [w] is issued and gets a
    response (of any status). *)
Definition caseResponded (network : list Event -> Request -> Reply)
           (cfg : Config) (cid : jsstring) (w : World) : bool :=
  if argvNew cfg && existsSync w (PRawHtml cid) then false
  else match network (trace (caseStarted cfg cid w)) (caseRequest cfg cid w) with
       | ReplyOk _ _ => true
       | ReplyError _ => false
       end.

(** The files written by [saveCase], in order. *)
Definition savedPaths (cid : jsstring) : list Path :=
  [PCostsCsv cid; PActionsCsv cid; PCaseCsv cid; PCaseJson cid;
   PActionsStore; PSummaryStore].

(** [actions[a.id] = a] for each action of a list. *)
Definition storeActions (stored : list Action) (mem : gmap jsstring Action)
  : gmap jsstring Action :=
  fold_left (fun m a => <[default [] (id a) := a]> m) stored mem.

(** ** The calendar script

    The extraction of the hearings from the tables of the calendar page
    (lines 72 to 120 of the script). *)

Module Calendar.

(** A row of the output CSV. *)
Record Hearing := mkHearing {
  ctrm : jsstring;
  name : jsstring;
  date : jsstring;
  time : jsstring;
  hearing : jsstring;
  caption : jsstring;
  caseNumber : jsstring          (* the field [case] *)
}.

(** What cheerio extracts from a [table.table-condensed]: the text of its
    heading cell and, for each row of its body, the texts of the cells. *)
Definition Table := (jsstring * list (list jsstring))%type.

(** The callback of the inner [each]: a row whose sixth cell is blank is
    skipped. *)
Definition rowOf (heading : jsstring) (tds : list jsstring) : option Hearing :=
  if negb (truthy (cell tds 5)) then None
  else Some (mkHearing heading (cell tds 0) (cell tds 1) (cell tds 2)
                       (cell tds 3) (cell tds 4) (cell tds 5)).

(** The callback of the outer [each]. *)
Definition tableRows (t : Table) : list Hearing :=
  omap (rowOf (trim (fst t))) (snd t).

(** The array [data] after both loops. *)
Definition extract (tables : list Table) : list Hearing :=
  flat_map tableRows tables.

(** The rows of all the tables, in order. *)
Definition allRows (tables : list Table) : list (list jsstring) :=
  flat_map snd tables.

End Calendar.

(** A narrative whose first action has an image. *)
Definition narrativeImage : jsstring :=
  js "1/2/2020 Case Filed" ++ [10] ++ js "Image ID ab12" ++ [10]
     ++ js "1/5/2020 Answer Filed".

(** *** The persisted marker, read off the file system

    The marker of [key] in the marker file [p] is set when the file holds
    a map that sends [key] to [true]; it is not set when there is no such
    file or when its map does not send [key] to [true]. *)
Definition markerState (w : World) (p : Path) (key : jsstring) (set : bool)
  : Prop :=
  if set
  then exists m, readFile w p = Some (CMarkers m) /\ m !! key = Some true
  else readFile w p = None
       \/ exists m, readFile w p = Some (CMarkers m) /\ m !! key <> Some true.

(** A request for an attachment. *)
Definition isLinkRequest (q : Request) : Prop :=
  exists href, url q = LinkUrl href.


(** The date token and the trimmed rest of a chunk that opens an action
    (groups 1 and 2 of [beginning]). *)
Definition openedBy (p : jsstring) : option (jsstring * jsstring) :=
  if truthy (trim p)
  then match Regex.match_first Patterns.fi Patterns.beginningRe (trim p) with
       | Some b => Some (Patterns.group (trim p) b 1,
                         trim (Patterns.group (trim p) b 2))
       | None => None
       end
  else None.

(** The date text of a token under the model of the date library: the
    ISO text of a calendar date, or [Invalid date]. *)
Definition dateText (tok : jsstring) : jsstring :=
  match Moment.parse_mdy tok with
  | Some (y, m, d) => isoDate y m d
  | None => js "Invalid date"
  end.

(** The date and the type of an action. *)
Definition dateAndType (a : Action) : option jsstring * option jsstring :=
  (date a, type a).

(** The trace of [w'] continues the trace of [w] with events whose
    requests all satisfy [P]. *)
Definition continues (P : Request -> Prop) (w w' : World) : Prop :=
  exists t, trace w' = trace w ++ t /\ Forall P (requests t).

(* ================================================================= *)
(** ** Properties of the matcher *)

Module RegexFacts.
Import Regex.

Lemma backoff_called (k : cont) (i lo n : nat) (caps : captures) (res : result) :
  backoff k i lo n caps = Some res ->
  exists m, k (i + lo + m)%nat caps = Some res.
Proof.
  induction n as [|n IH]; simpl.
  - destruct (k (i + lo + 0)%nat caps) eqn:E; [|discriminate].
    intros [= <-]. eauto.
  - destruct (k (i + lo + S n)%nat caps) eqn:E.
    + intros [= <-]. eauto.
    + exact IH.
Qed.

(** A successful match is a successful call of the continuation at a
    position that is not before the start. *)
Lemma rmatch_called (fl : flags) (s : jsstring) (r : regex) :
  forall (i : nat) (caps : captures) (k : cont) (res : result),
    rmatch fl s r i caps k = Some res ->
    exists j cs, (i <= j)%nat /\ k j cs = Some res.
Proof.
  induction r as [| | |c|c|c|r1 IH1 r2 IH2|r1 IH1 r2 IH2|n r1 IH1];
    intros i caps k res; simpl.
  - intros H. exists i, caps. split; [lia|exact H].
  - destruct (at_bol fl s i); [|discriminate].
    intros H. exists i, caps. split; [lia|exact H].
  - destruct (at_eol fl s i); [|discriminate].
    intros H. exists i, caps. split; [lia|exact H].
  - destruct (s !! i) as [x|]; [|discriminate].
    destruct (cls_match fl c x); [|discriminate].
    intros H. exists (S i), caps. split; [lia|exact H].
  - intros H. apply backoff_called in H as [m Hm].
    exists (i + 0 + m)%nat, caps. split; [lia|exact Hm].
  - destruct (run fl c (drop i s)) as [|n]; [discriminate|].
    intros H. apply backoff_called in H as [m Hm].
    exists (i + 1 + m)%nat, caps. split; [lia|exact Hm].
  - intros H. apply IH1 in H as (j1 & cs1 & Hle1 & H).
    apply IH2 in H as (j2 & cs2 & Hle2 & H).
    exists j2, cs2. split; [lia|exact H].
  - destruct (rmatch fl s r1 i caps k) eqn:E.
    + intros [= <-]. apply IH1 in E. exact E.
    + apply IH2.
  - intros H. apply IH1 in H as (j & cs & Hle & H).
    exists j, ((n, (i, j)) :: cs). split; [lia|exact H].
Qed.

Lemma match_at_end (fl : flags) (r : regex) (s : jsstring) (i e : nat)
      (cs : captures) :
  match_at fl r s i = Some (e, cs) -> (i <= e)%nat.
Proof.
  unfold match_at. intros H.
  apply rmatch_called in H as (j & cs' & Hle & [= <- _]). exact Hle.
Qed.

Lemma search_bounds (fl : flags) (r : regex) (s : jsstring) (n : nat) :
  forall (i p e : nat) (cs : captures),
    search fl r s i n = Some (p, (e, cs)) -> (i <= p <= e)%nat.
Proof.
  induction n as [|n IH]; intros i p e cs; simpl;
    destruct (match_at fl r s i) as [[e' cs']|] eqn:E.
  - intros [= <- <- <-]. apply match_at_end in E. lia.
  - discriminate.
  - intros [= <- <- <-]. apply match_at_end in E. lia.
  - intros H. apply IH in H. lia.
Qed.

Lemma exec_from_bounds (fl : flags) (r : regex) (s : jsstring)
      (i p e : nat) (cs : captures) :
  exec_from fl r s i = Some (p, (e, cs)) -> (i <= p <= e)%nat.
Proof.
  unfold exec_from. destruct (i <=? length s)%nat; [|discriminate].
  apply search_bounds.
Qed.

Lemma exec_from_past_end (fl : flags) (r : regex) (s : jsstring) (i : nat) :
  (length s < i)%nat -> exec_from fl r s i = None.
Proof.
  intros H. unfold exec_from.
  destruct (Nat.leb_spec i (length s)); [lia|reflexivity].
Qed.

(** The bound on the iterations of the global match is never reached:
    more fuel does not change the result. *)
Lemma match_all_from_fuel (fl : flags) (r : regex) (s : jsstring) :
  forall (fuel fuel' lastIndex : nat),
    (length s + 2 - lastIndex <= fuel)%nat -> (fuel <= fuel')%nat ->
    match_all_from fl r s lastIndex fuel' = match_all_from fl r s lastIndex fuel.
Proof.
  induction fuel as [|fuel IH]; intros fuel' li Hm Hle.
  - destruct fuel' as [|fuel']; [reflexivity|]. simpl.
    rewrite exec_from_past_end by lia. reflexivity.
  - destruct fuel' as [|fuel']; [lia|]. simpl.
    destruct (exec_from fl r s li) as [[p [e cs]]|] eqn:E; [|reflexivity].
    f_equal. apply exec_from_bounds in E.
    apply IH; [|lia].
    destruct (Nat.eqb_spec e p); lia.
Qed.

(** Every text of a global match is a substring of the subject. *)
Lemma match_all_from_slices (fl : flags) (r : regex) (s : jsstring) :
  forall (fuel lastIndex : nat),
    Forall (fun p => exists i e, p = slice s i e)
           (match_all_from fl r s lastIndex fuel).
Proof.
  induction fuel as [|fuel IH]; intros li; simpl; [constructor|].
  destruct (exec_from fl r s li) as [[p [e cs]]|]; [|constructor].
  constructor; [eauto|apply IH].
Qed.

End RegexFacts.

(** ** Properties of [parseActions] *)

Lemma drop_spaces_all (s : jsstring) :
  forallb is_space s = true -> drop_spaces s = [].
Proof.
  induction s as [|c r IH]; simpl; [reflexivity|].
  destruct (is_space c); simpl; [exact IH|discriminate].
Qed.

Lemma trim_spaces (s : jsstring) : forallb is_space s = true -> trim s = [].
Proof. intros H. unfold trim. rewrite (drop_spaces_all s H). reflexivity. Qed.

Lemma forallb_take {A} (f : A -> bool) (n : nat) (l : list A) :
  forallb f l = true -> forallb f (take n l) = true.
Proof.
  revert n. induction l as [|x l IH]; intros [|n]; simpl; try reflexivity.
  destruct (f x); simpl; [apply IH|discriminate].
Qed.

Lemma forallb_drop {A} (f : A -> bool) (n : nat) (l : list A) :
  forallb f l = true -> forallb f (drop n l) = true.
Proof.
  revert n. induction l as [|x l IH]; intros [|n]; simpl; try reflexivity.
  - intros H; exact H.
  - destruct (f x); simpl; [apply IH|discriminate].
Qed.

Lemma slice_spaces (s : jsstring) (i e : nat) :
  forallb is_space s = true -> forallb is_space (slice s i e) = true.
Proof. intros H. unfold slice. apply forallb_take, forallb_drop, H. Qed.

Section ParseFacts.

Variable formatDate : jsstring -> jsstring.
Variable cid : jsstring.

(** A part of white space leaves the state of the loop as it is. *)
Lemma parsePart_spaces (st : pstate) (p : jsstring) :
  forallb is_space p = true -> parsePart formatDate cid st p = st.
Proof.
  intros H. unfold parsePart. destruct st as [acts acc].
  rewrite trim_spaces by exact H. reflexivity.
Qed.

Lemma parsePart_dated (P : Action -> Prop) :
  (forall d t, P (mkAction (Some cid) (Some d) t None None None None)) ->
  (forall a i m o, P a ->
     P (mkAction (caseId a) (date a) (type a) i m o (id a))) ->
  forall (st : pstate) (p : jsstring),
    Forall (dated P) (fst st) /\ dated P (snd st) ->
    Forall (dated P) (fst (parsePart formatDate cid st p))
    /\ dated P (snd (parsePart formatDate cid st p)).
Proof.
  intros Hopen Hset [acts acc] p [Hacts Hacc]. simpl in Hacts, Hacc.
  unfold parsePart.
  destruct (negb (truthy (trim p))); [split; assumption|].
  destruct (Regex.match_first _ Patterns.beginningRe _).
  { simpl. split.
    - apply Forall_app. split; [exact Hacts|]. constructor; [exact Hacc|constructor].
    - intros _. apply Hopen. }
  destruct (Regex.match_first _ Patterns.initiatedRe _);
    [|destruct (Regex.match_first _ Patterns.imageRe _)];
    (simpl; split; [exact Hacts|]);
    intros Hd; apply Hset; apply Hacc; exact Hd.
Qed.

Lemma fold_parsePart_dated (P : Action -> Prop) :
  (forall d t, P (mkAction (Some cid) (Some d) t None None None None)) ->
  (forall a i m o, P a ->
     P (mkAction (caseId a) (date a) (type a) i m o (id a))) ->
  forall (parts : list jsstring) (st : pstate),
    Forall (dated P) (fst st) /\ dated P (snd st) ->
    Forall (dated P) (fst (fold_left (parsePart formatDate cid) parts st)).
Proof.
  intros Hopen Hset parts.
  induction parts as [|p parts IH]; intros st Hst; simpl.
  - apply Hst.
  - apply IH. apply parsePart_dated; assumption.
Qed.

(** Every action of the result has a date and satisfies any property that
    the loop keeps for dated actions. *)
Lemma parseActions_dated (P : Action -> Prop) (text : jsstring) :
  (forall d t, P (mkAction (Some cid) (Some d) t None None None None)) ->
  (forall a i m o, P a ->
     P (mkAction (caseId a) (date a) (type a) i m o (id a))) ->
  forall a, In a (parseActions formatDate text cid) ->
            hasDate a = true /\ P a.
Proof.
  intros Hopen Hset a. unfold parseActions. rewrite filter_In.
  intros [Hin Hd]. split; [exact Hd|].
  destruct (Regex.match_all _ _ _) as [parts|]; [|destruct Hin].
  assert (Forall (dated P)
            (fst (fold_left (parsePart formatDate cid) parts ([], emptyAction))))
    as H.
  { apply fold_parsePart_dated; [exact Hopen|exact Hset|].
    split; [constructor|]. intros Hf. discriminate Hf. }
  rewrite Forall_forall in H. apply H; [|exact Hd].
  apply list_elem_of_In. exact Hin.
Qed.

Lemma fold_parsePart_spaces (parts : list jsstring) (st : pstate) :
  Forall (fun p => forallb is_space p = true) parts ->
  fold_left (parsePart formatDate cid) parts st = st.
Proof.
  induction 1 as [|p parts Hp _ IH]; simpl; [reflexivity|].
  rewrite parsePart_spaces by exact Hp. exact IH.
Qed.

End ParseFacts.

(** With one chunk per line the first action of the example is returned;
    the last accumulator is never pushed. *)
Lemma parseActions_lines :
  parseActions Moment.format_mdy narrativeLines exampleCaseId = [caseFiled].
Proof. vm_compute. reflexivity. Qed.

(** C1: on the one-line narrative of the example the whole text is one
    match of [actionReg]; the action it opens is never pushed and
    [parseActions] returns the empty list, for any case id, instead of
    the two actions of the specification. *)
Theorem parseActions_example_one_line (cid : jsstring) :
  parseActions Moment.format_mdy narrativeOneLine cid = [].
Proof. vm_compute. reflexivity. Qed.

(** C6: every action returned by [parseActions] has a non-empty date, and
    a narrative that is empty or made of white space only gives the empty
    list. *)
Theorem parseActions_date_nonempty
        (formatDate : jsstring -> jsstring) (text cid : jsstring) :
  (forall a, In a (parseActions formatDate text cid) ->
             exists d, date a = Some d /\ d <> [])
  /\ (forallb is_space text = true -> parseActions formatDate text cid = []).
Proof.
  split.
  - intros a Hin.
    destruct (parseActions_dated formatDate cid (fun _ => True) text) with a
      as [Hd _]; [intros; exact I|intros; exact I|exact Hin|].
    unfold hasDate, truthy_opt in Hd.
    destruct (date a) as [d|]; [|discriminate].
    exists d. split; [reflexivity|]. intros ->. discriminate.
  - intros Hws. unfold parseActions, Regex.match_all.
    pose proof (RegexFacts.match_all_from_slices
                  Patterns.gim Patterns.actionReg text
                  (length text + 2) 0) as Hsl.
    destruct (Regex.match_all_from _ _ _ _ _) as [|p parts]; [reflexivity|].
    rewrite fold_parsePart_spaces; [reflexivity|].
    eapply Forall_impl; [exact Hsl|].
    intros q (i & e & ->). apply slice_spaces, Hws.
Qed.

Lemma parseActions_date_nonempty_witness :
  (exists d, date caseFiled = Some d /\ d <> [])
  /\ parseActions Moment.format_mdy (js "  " ++ [10; 9]) exampleCaseId = [].
Proof.
  split.
  - apply (proj1 (parseActions_date_nonempty
                    Moment.format_mdy narrativeLines exampleCaseId)).
    vm_compute. left. reflexivity.
  - apply (proj2 (parseActions_date_nonempty
                    Moment.format_mdy (js "  " ++ [10; 9]) exampleCaseId)).
    vm_compute. reflexivity.
Defined.

(** C10: every action returned by [parseActions] carries the case id that
    was passed to the parser. *)
Theorem parseActions_caseId
        (formatDate : jsstring -> jsstring) (text cid : jsstring) (a : Action) :
  In a (parseActions formatDate text cid) -> caseId a = Some cid.
Proof.
  intros Hin.
  apply (parseActions_dated formatDate cid (fun x => caseId x = Some cid) text);
    [reflexivity|intros x i m o Hx; exact Hx|exact Hin].
Qed.

Lemma parseActions_caseId_witness : caseId caseFiled = Some exampleCaseId.
Proof.
  apply (parseActions_caseId Moment.format_mdy narrativeLines exampleCaseId).
  vm_compute. left. reflexivity.
Defined.

(** C7, against the claim: the first chunk begins with the date-shaped
    token 13/45/2020, which is not a calendar date, and its action is
    returned, dated [Invalid date]. *)
Lemma parseActions_keeps_invalid_date :
  Moment.parse_mdy (js "13/45/2020") = None
  /\ parseActions Moment.format_mdy narrativeBadDate exampleCaseId = [badDated].
Proof. split; vm_compute; reflexivity. Qed.

(** A chunk that begins with a date token pushes the
    accumulator behind the actions collected so far, which stay as they
    are, and opens an action whose date is the ISO text of the token when
    it parses and the text [Invalid date] when it does not; in both cases
    the date is not empty, so the filter keeps the action once it is
    pushed. *)
Theorem parsePart_opens_dated
        (cid : jsstring) (acts : list Action) (acc : Action)
        (p : jsstring) (b : Regex.captures) :
  truthy (trim p) = true ->
  Regex.match_first Patterns.fi Patterns.beginningRe (trim p) = Some b ->
  exists opened,
    parsePart Moment.format_mdy cid (acts, acc) p = (acts ++ [acc], opened)
    /\ caseId opened = Some cid
    /\ date opened =
         Some (match Moment.parse_mdy (Patterns.group (trim p) b 1) with
               | Some (y, m, d) => isoDate y m d
               | None => js "Invalid date"
               end)
    /\ hasDate opened = true
    /\ List.filter hasDate ((acts ++ [acc]) ++ [opened])
       = List.filter hasDate (acts ++ [acc]) ++ [opened].
Proof.
  intros Ht Hb. unfold parsePart. rewrite Ht, Hb. simpl.
  eexists. split; [reflexivity|]. simpl. split; [reflexivity|].
  assert (Moment.format_mdy (Patterns.group (trim p) b 1)
          = match Moment.parse_mdy (Patterns.group (trim p) b 1) with
            | Some (y, m, d) => isoDate y m d
            | None => js "Invalid date"
            end) as Hf.
  { unfold Moment.format_mdy.
    destruct (Moment.parse_mdy _) as [[[y m] d]|]; reflexivity. }
  assert (truthy (Moment.format_mdy (Patterns.group (trim p) b 1)) = true) as Hd.
  { rewrite Hf. destruct (Moment.parse_mdy _) as [[[y m] d]|]; reflexivity. }
  split; [rewrite Hf; reflexivity|].
  split; [exact Hd|].
  rewrite (List.filter_app hasDate (acts ++ [acc])). f_equal.
  simpl. unfold hasDate. simpl. rewrite Hd. reflexivity.
Qed.

Lemma parsePart_opens_dated_witness :
  exists opened,
    parsePart Moment.format_mdy exampleCaseId ([], emptyAction)
              (js "13/45/2020 Bad") = ([] ++ [emptyAction], opened)
    /\ caseId opened = Some exampleCaseId
    /\ date opened =
         Some (match Moment.parse_mdy
                       (Patterns.group (trim (js "13/45/2020 Bad"))
                          badDateMatch 1) with
               | Some (y, m, d) => isoDate y m d
               | None => js "Invalid date"
               end)
    /\ hasDate opened = true
    /\ List.filter hasDate (([] ++ [emptyAction]) ++ [opened])
       = List.filter hasDate ([] ++ [emptyAction]) ++ [opened].
Proof.
  apply (parsePart_opens_dated exampleCaseId [] emptyAction
           (js "13/45/2020 Bad") badDateMatch).
  - vm_compute. reflexivity.
  - vm_compute. reflexivity.
Defined.

(** ** Properties of the program *)

Lemma readFile_write_ne (p q : Path) (c : Content) (w : World) :
  p <> q -> readFile (writeFileSync p c w) q = readFile w q.
Proof.
  intros Hne. unfold readFile, writeFileSync. simpl.
  rewrite bool_decide_eq_false_2 by exact Hne. reflexivity.
Qed.

Lemma existsSync_write_ne (p q : Path) (c : Content) (w : World) :
  p <> q -> existsSync (writeFileSync p c w) q = existsSync w q.
Proof. intros Hne. unfold existsSync. rewrite readFile_write_ne by exact Hne. reflexivity. Qed.

Lemma loadMarkers_write (p : Path) (m : gmap jsstring bool) (w : World) :
  loadMarkers (writeFileSync p (CMarkers m) w) p = m.
Proof.
  unfold loadMarkers, readFile, writeFileSync. simpl.
  rewrite bool_decide_eq_true_2 by reflexivity. reflexivity.
Qed.

Lemma readFile_markers_after_attachment
      (cid name : jsstring) (body : jsstring) (m : gmap jsstring bool)
      (w : World) :
  loadMarkers (writeFileSync (PAttachment cid name) (CBody body)
                 (writeFileSync PActionDownloads (CMarkers m) w))
              PActionDownloads = m.
Proof.
  unfold loadMarkers. rewrite readFile_write_ne by discriminate.
  apply loadMarkers_write.
Qed.

Lemma extends_refl (w : World) : extends w w.
Proof. exists []. symmetry. apply app_nil_r. Qed.

Lemma extends_trans (w1 w2 w3 : World) :
  extends w1 w2 -> extends w2 w3 -> extends w1 w3.
Proof.
  intros [t1 H1] [t2 H2]. exists (t1 ++ t2).
  rewrite H2, H1. symmetry. apply app_assoc.
Qed.

Lemma extends_emit (e : Event) (w : World) : extends w (emit e w).
Proof. exists [e]. reflexivity. Qed.

Lemma extends_write (p : Path) (c : Content) (w : World) :
  extends w (writeFileSync p c w).
Proof. exists [EvWrite p c]. reflexivity. Qed.

Create HintDb scraper.
#[local] Hint Resolve extends_refl extends_emit extends_write : scraper.

Section ProgramFacts.

Variable formatDate : jsstring -> jsstring.
Variable cheerio : jsstring -> Page.
Variable network : list Event -> Request -> Reply.
Variable cfg : Config.

Lemma downloadActionStart_trace (cid href aid : jsstring) (acts : list Action)
      (w : World) :
  trace (fst (downloadActionStart cfg cid href aid acts w))
  = trace w ++ actionStartEvents cfg cid href aid w.
Proof.
  unfold downloadActionStart, actionStartEvents, actionRequestOf. cbn.
  destruct (marked (loadMarkers w PActionDownloads) (actionKey cid aid));
    cbn; rewrite <- ?app_assoc; reflexivity.
Qed.

Lemma downloadActionStart_request (cid href aid : jsstring)
      (acts : list Action) (w : World) :
  actionRequest (snd (downloadActionStart cfg cid href aid acts w))
  = actionRequestOf cfg cid href aid w.
Proof. reflexivity. Qed.

Lemma downloadActionCallback_extends (cid href aid : jsstring)
      (d : ActionDownload) (w : World) :
  extends w (fst (downloadActionCallback network cid href aid d w)).
Proof.
  unfold downloadActionCallback.
  destruct (network (trace w) (actionRequest d)) as [e|st body]; simpl.
  - apply extends_refl.
  - destruct (300 <=? st)%Z; simpl; [apply extends_refl|].
    eapply extends_trans; apply extends_write.
Qed.

(** One turn of the loop over the links. *)
Lemma downloadImages_cons {A} (caller : Caller) (pr : Promise A)
      (cid : jsstring) (acts : list Action) (a : option jsstring)
      (rest : list (option jsstring)) (w : World) :
  downloadImages network cfg caller pr cid acts (a :: rest) w
  = match a ≫= (fun href => pair href <$> linkMatch href) with
    | None => (w, Threw)
    | Some (href, aid) =>
        let '(w, d) := downloadActionStart cfg cid href aid acts w in
        if exitsWhileWaiting caller pr then (w, Killed)
        else
          let '(w, res) := downloadActionCallback network cid href aid d w in
          let w :=
            match res with
            | Rejected e =>
                log (LogDownloadFailed aid cid) (log (LogCaught e) w)
            | _ => log (LogDownloaded aid cid) w
            end in
          downloadImages network cfg caller pr cid acts rest w
    end.
Proof. reflexivity. Qed.

Lemma downloadImages_extends {A} (caller : Caller) (pr : Promise A)
      (cid : jsstring) (acts : list Action) (links : list (option jsstring)) :
  forall w, extends w (fst (downloadImages network cfg caller pr cid acts links w)).
Proof.
  induction links as [|a rest IH]; intros w; [apply extends_refl|].
  rewrite downloadImages_cons.
  destruct (a ≫= _) as [[href aid]|]; [|apply extends_refl].
  pose proof (downloadActionStart_trace cid href aid acts w) as Hs.
  destruct (downloadActionStart cfg cid href aid acts w) as [w1 d].
  simpl in Hs.
  assert (extends w w1) as H1 by (eexists; exact Hs).
  destruct (exitsWhileWaiting caller pr); simpl; [exact H1|].
  pose proof (downloadActionCallback_extends cid href aid d w1) as H2.
  destruct (downloadActionCallback network cid href aid d w1) as [w2 res].
  simpl in H2.
  eapply extends_trans; [exact H1|].
  eapply extends_trans; [exact H2|].
  eapply extends_trans; [|apply IH].
  destruct res; unfold log; eauto using extends_trans with scraper.
Qed.

Lemma saveCase_extends (cid : jsstring) (data : CaseData) (w : World) :
  extends w (fst (saveCase cid data w)).
Proof.
  unfold extends, saveCase, writeFileSync. simpl.
  rewrite <- !app_assoc. eexists. reflexivity.
Qed.

End ProgramFacts.

Section CaseFacts.

Variable formatDate : jsstring -> jsstring.
Variable cheerio : jsstring -> Page.
Variable network : list Event -> Request -> Reply.
Variable cfg : Config.

(** When [getCase] does not return early, the callback runs in the world
    [caseStarted] with the request [caseRequest]. *)
Lemma getCase_started (caller : Caller) (cid : jsstring) (w : World) :
  argvNew cfg && existsSync w (PRawHtml cid) = false ->
  getCase formatDate cheerio network cfg caller cid w
  = getCaseCallback formatDate cheerio network cfg caller cid
      (<[cid := true]> (loadMarkers w PCaseDownloads))
      (caseRequest cfg cid w) (caseStarted cfg cid w).
Proof.
  intros Hnew. unfold getCase.
  rewrite existsSync_write_ne by discriminate.
  replace (existsSync (if marked (loadMarkers w PCaseDownloads) cid
                       then log (LogCaseNotFinished cid) w else w)
                      (PRawHtml cid))
    with (existsSync w (PRawHtml cid))
    by (destruct (marked _ cid); reflexivity).
  rewrite Hnew. f_equal.
  unfold caseStarted, caseStartEvents, caseRequest, emit, log, writeFileSync.
  destruct (marked (loadMarkers w PCaseDownloads) cid); simpl;
    rewrite <- ?app_assoc; reflexivity.
Qed.

(** With [--new] and the raw page on disk, [getCase] writes the marker,
    logs, and resolves. *)
Lemma getCase_skipped (caller : Caller) (cid : jsstring) (w : World) :
  argvNew cfg = true -> existsSync w (PRawHtml cid) = true ->
  getCase formatDate cheerio network cfg caller cid w
  = (log (LogNewExists cid)
       (writeFileSync PCaseDownloads
          (CMarkers (<[cid := true]> (loadMarkers w PCaseDownloads)))
          (if marked (loadMarkers w PCaseDownloads) cid
           then log (LogCaseNotFinished cid) w else w)),
     Resolved None, Completed).
Proof.
  intros Hnew Hraw. unfold getCase.
  rewrite existsSync_write_ne by discriminate.
  replace (existsSync (if marked (loadMarkers w PCaseDownloads) cid
                       then log (LogCaseNotFinished cid) w else w)
                      (PRawHtml cid))
    with (existsSync w (PRawHtml cid))
    by (destruct (marked _ cid); reflexivity).
  rewrite Hnew, Hraw. reflexivity.
Qed.

(** The trace of the callback on a response: the raw page is written,
    the banner is logged if there is one, the narrative is parsed, and
    only then is the marker written back as false. *)
Lemma getCaseCallback_ok_trace (caller : Caller) (cid : jsstring)
      (cd : gmap jsstring bool) (req : Request) (w : World)
      (statusCode : Z) (body : jsstring) :
  network (trace w) req = ReplyOk statusCode body ->
  exists post,
    trace (fst (fst (getCaseCallback formatDate cheerio network cfg
                       caller cid cd req w)))
    = trace w
      ++ [EvWrite (PRawHtml cid) (CBody body)]
      ++ bannerEvents cid (cheerio body)
      ++ [EvParseActions cid;
          EvWrite PCaseDownloads (CMarkers (<[cid := false]> cd))]
      ++ post.
Proof.
  intros Hnet. unfold getCaseCallback. rewrite Hnet.
  match goal with
  | |- context [downloadImages network cfg caller ?pr cid ?acts ?links ?w2] =>
      pose proof (downloadImages_extends network cfg caller pr cid acts links w2)
        as [t Ht];
      assert (trace w2
              = trace w ++ [EvWrite (PRawHtml cid) (CBody body)]
                ++ bannerEvents cid (cheerio body)
                ++ [EvParseActions cid;
                    EvWrite PCaseDownloads (CMarkers (<[cid := false]> cd))])
        as Hw2
        by (unfold bannerEvents, logBanner, log, emit, writeFileSync;
            destruct (hasBanner (cheerio body)); simpl;
            rewrite <- ?app_assoc; reflexivity);
      rewrite Hw2 in Ht; clear Hw2;
      destruct (downloadImages network cfg caller pr cid acts links w2)
        as [w3 ending]
  end.
  cbn [fst] in Ht.
  destruct ending.
  - match goal with
    | |- context [saveCase cid ?data w3] =>
        pose proof (saveCase_extends cid data w3) as [t' Ht'];
        destruct (saveCase cid data w3) as [w4 data']
    end.
    cbn [fst] in Ht' |- *. exists (t ++ t').
    rewrite Ht', Ht. rewrite <- !app_assoc. reflexivity.
  - cbn [fst]. exists t. rewrite Ht. rewrite <- !app_assoc. reflexivity.
  - cbn [fst]. exists t. rewrite Ht. rewrite <- !app_assoc. reflexivity.
Qed.

(** The promise after the callback on a response with a success status
    and a banner. *)
Lemma getCaseCallback_banner_promise (caller : Caller) (cid : jsstring)
      (cd : gmap jsstring bool) (req : Request) (w : World)
      (statusCode : Z) (body : jsstring) :
  network (trace w) req = ReplyOk statusCode body ->
  (statusCode < 300)%Z ->
  hasBanner (cheerio body) = true ->
  snd (fst (getCaseCallback formatDate cheerio network cfg
              caller cid cd req w))
  = Rejected (RSearch cid).
Proof.
  intros Hnet Hst Hb. unfold getCaseCallback. rewrite Hnet, Hb.
  destruct (Z.leb_spec 300 statusCode) as [Hge|_]; [lia|].
  match goal with
  | |- context [downloadImages network cfg caller ?pr cid ?acts ?links ?w2] =>
      destruct (downloadImages network cfg caller pr cid acts links w2)
        as [w3 ending]
  end.
  destruct ending; reflexivity.
Qed.

End CaseFacts.

Section FetchFacts.

Variable formatDate : jsstring -> jsstring.
Variable cheerio : jsstring -> Page.
Variable network : list Event -> Request -> Reply.
Variable cfg : Config.

Lemma getCaseCallback_extends (caller : Caller) (cid : jsstring)
      (cd : gmap jsstring bool) (req : Request) (w : World) :
  extends w (fst (fst (getCaseCallback formatDate cheerio network cfg
                         caller cid cd req w))).
Proof.
  destruct (network (trace w) req) as [e|st body] eqn:Hnet.
  - unfold getCaseCallback. rewrite Hnet. apply extends_emit.
  - destruct (getCaseCallback_ok_trace formatDate cheerio network cfg
                caller cid cd req w st body Hnet) as [post Hpost].
    eexists. exact Hpost.
Qed.

(** The first request of a case fetch that is not skipped. *)
Lemma getCase_request (caller : Caller) (cid : jsstring) (w : World) :
  argvNew cfg && existsSync w (PRawHtml cid) = false ->
  exists post,
    trace (fst (fst (getCase formatDate cheerio network cfg caller cid w)))
    = trace w ++ caseStartEvents cfg cid w ++ post.
Proof.
  intros Hnew. rewrite getCase_started by exact Hnew.
  destruct (getCaseCallback_extends caller cid
              (<[cid := true]> (loadMarkers w PCaseDownloads))
              (caseRequest cfg cid w) (caseStarted cfg cid w)) as [post Hpost].
  exists post. rewrite Hpost. unfold caseStarted. simpl.
  rewrite <- app_assoc. reflexivity.
Qed.

Lemma requests_caseStartEvents (cid : jsstring) (w : World) :
  requests (caseStartEvents cfg cid w) = [caseRequest cfg cid w].
Proof.
  unfold caseStartEvents.
  destruct (marked (loadMarkers w PCaseDownloads) cid); reflexivity.
Qed.

Lemma requests_actionStartEvents (cid href aid : jsstring) (w : World) :
  requests (actionStartEvents cfg cid href aid w)
  = [actionRequestOf cfg cid href aid w].
Proof.
  unfold actionStartEvents.
  destruct (marked (loadMarkers w PActionDownloads) (actionKey cid aid));
    reflexivity.
Qed.

Lemma downloadAction_request (cid href aid : jsstring) (acts : list Action)
      (w : World) :
  exists post,
    trace (fst (downloadAction network cfg cid href aid acts w))
    = trace w ++ actionStartEvents cfg cid href aid w ++ post.
Proof.
  unfold downloadAction.
  pose proof (downloadActionStart_trace cfg cid href aid acts w) as Hs.
  destruct (downloadActionStart cfg cid href aid acts w) as [w1 d].
  cbn [fst] in Hs.
  destruct (downloadActionCallback_extends network cid href aid d w1)
    as [post Hpost].
  exists post. rewrite Hpost, Hs. rewrite <- app_assoc. reflexivity.
Qed.

End FetchFacts.

(** The events of a fetch up to its first request. *)
Lemma fetch_first_request
        (formatDate : jsstring -> jsstring) (cheerio : jsstring -> Page)
        (network : list Event -> Request -> Reply) (cfg : Config)
        (caller : Caller) (cid href aid : jsstring) (acts : list Action)
        (w : World) :
  (argvNew cfg && existsSync w (PRawHtml cid) = false ->
   exists post,
     trace (fst (fst (getCase formatDate cheerio network cfg caller cid w)))
     = trace w ++ caseStartEvents cfg cid w ++ post
     /\ requests (caseStartEvents cfg cid w) = [caseRequest cfg cid w]
     /\ ttl (caseRequest cfg cid w)
        = if marked (loadMarkers w PCaseDownloads) cid then 0%Z else TTL cfg)
  /\ (exists post,
        trace (fst (downloadAction network cfg cid href aid acts w))
        = trace w ++ actionStartEvents cfg cid href aid w ++ post
        /\ requests (actionStartEvents cfg cid href aid w)
           = [actionRequestOf cfg cid href aid w]
        /\ ttl (actionRequestOf cfg cid href aid w)
           = if marked (loadMarkers w PActionDownloads) (actionKey cid aid)
             then 0%Z else TTL cfg).
Proof.
  split.
  - intros Hnew.
    destruct (getCase_request formatDate cheerio network cfg caller cid w Hnew)
      as [post Hpost].
    exists post. split; [exact Hpost|].
    split; [apply requests_caseStartEvents|reflexivity].
  - destruct (downloadAction_request network cfg cid href aid acts w)
      as [post Hpost].
    exists post. split; [exact Hpost|].
    split; [apply requests_actionStartEvents|reflexivity].
Qed.

(** On that world the marker is set and the request goes out with a
    time-to-live of zero. *)
Lemma interrupted_case_request :
  marked (loadMarkers interruptedWorld PCaseDownloads) case4 = true
  /\ requests (trace (fst (fst (getCase Moment.format_mdy exampleCheerio
                                  exampleNetwork exampleConfig Single case4
                                  interruptedWorld))))
     = [mkRequest 0 CasesUrl (Some (js "CR", js "19", js "00004"));
        mkRequest 86400000 (LinkUrl (js "/doc?id=ab12&t=1")) None].
Proof. split; vm_compute; reflexivity. Qed.

(** C9: with [--new] and the raw page of the case on disk, [getCase]
    resolves without a request, yet it has written the marker of the case
    as true and leaves it so; a later fetch of the case, under any
    configuration, finds the marker set, logs that the download did not
    finish, and, when it is not skipped again, issues its request with a
    time-to-live of zero. *)
Theorem getCase_new_leaves_marker
        (formatDate : jsstring -> jsstring) (cheerio : jsstring -> Page)
        (network : list Event -> Request -> Reply) (cfg : Config)
        (caller : Caller) (cid : jsstring) (w : World) :
  argvNew cfg = true ->
  existsSync w (PRawHtml cid) = true ->
  let r := getCase formatDate cheerio network cfg caller cid w in
  let w' := fst (fst r) in
  snd (fst r) = Resolved None
  /\ snd r = Completed
  /\ (exists t, trace w' = trace w ++ t /\ requests t = [])
  /\ marked (loadMarkers w' PCaseDownloads) cid = true
  /\ forall (network2 : list Event -> Request -> Reply) (cfg2 : Config)
            (caller2 : Caller),
       ttl (caseRequest cfg2 cid w') = 0%Z
       /\ (argvNew cfg2 = false ->
           exists post,
             trace (fst (fst (getCase formatDate cheerio network2 cfg2
                                caller2 cid w')))
             = trace w'
               ++ [EvLog (LogCaseNotFinished cid);
                   EvWrite PCaseDownloads
                     (CMarkers (<[cid := true]> (loadMarkers w' PCaseDownloads)));
                   EvLog (LogGetting cid);
                   EvRequest (mkRequest 0 CasesUrl (Some (caseForm cid)))]
               ++ post).
Proof.
  intros Hnew Hraw r w'. subst r w'.
  rewrite getCase_skipped by assumption. cbn [fst snd].
  set (m := loadMarkers w PCaseDownloads).
  set (w0 := if marked m cid then log (LogCaseNotFinished cid) w else w).
  assert (marked (loadMarkers
                    (log (LogNewExists cid)
                       (writeFileSync PCaseDownloads
                          (CMarkers (<[cid := true]> m)) w0))
                    PCaseDownloads) cid = true) as Hm.
  { unfold log, emit, loadMarkers, readFile. simpl.
    unfold marked. rewrite lookup_insert_eq. reflexivity. }
  split; [reflexivity|]. split; [reflexivity|].
  split.
  { subst w0. unfold log, emit, writeFileSync.
    destruct (marked m cid); simpl; rewrite <- ?app_assoc;
      eexists; (split; [reflexivity|reflexivity]). }
  split; [exact Hm|].
  intros network2 cfg2 caller2.
  split.
  { unfold caseRequest. rewrite Hm. reflexivity. }
  intros Hnew2.
  match goal with
  | |- context [getCase _ _ _ _ _ _ ?w1] =>
      destruct (getCase_request formatDate cheerio network2 cfg2 caller2 cid w1)
        as [post Hpost]; [rewrite Hnew2; reflexivity|];
      exists post; rewrite Hpost
  end.
  unfold caseStartEvents, caseRequest. rewrite Hm. reflexivity.
Qed.

Lemma getCase_new_leaves_marker_witness :
  let r := getCase Moment.format_mdy exampleCheerio exampleNetwork
                   exampleConfigNew Single case4 interruptedWorld in
  snd (fst r) = Resolved None
  /\ marked (loadMarkers (fst (fst r)) PCaseDownloads) case4 = true.
Proof.
  pose proof (getCase_new_leaves_marker
                Moment.format_mdy exampleCheerio exampleNetwork
                exampleConfigNew Single case4 interruptedWorld
                eq_refl eq_refl) as H.
  cbv zeta in H. destruct H as (H1 & _ & _ & H4 & _).
  split; [exact H1|exact H4].
Defined.

(** The same on a world without markers: after the skipped run the marker
    of the case is set although nothing was downloaded. *)
Lemma getCase_new_sets_marker :
  let skipWorld := mkWorld [(PRawHtml case4, CBody (js "linked"))] ∅ ∅ [] in
  let r := getCase Moment.format_mdy exampleCheerio exampleNetwork
                   exampleConfigNew Single case4 skipWorld in
  marked (loadMarkers skipWorld PCaseDownloads) case4 = false
  /\ requests (trace (fst (fst r))) = []
  /\ marked (loadMarkers (fst (fst r)) PCaseDownloads) case4 = true.
Proof. repeat split; vm_compute; reflexivity. Qed.

(** The transport failures of a case fetch reject with plain strings. *)
Lemma getCase_transport_rejections
      (formatDate : jsstring -> jsstring) (cheerio : jsstring -> Page)
      (network : list Event -> Request -> Reply) (cfg : Config)
      (caller : Caller) (cid : jsstring) (w : World) :
  argvNew cfg && existsSync w (PRawHtml cid) = false ->
  let r := getCase formatDate cheerio network cfg caller cid w in
  (forall e,
     network (trace (caseStarted cfg cid w)) (caseRequest cfg cid w)
     = ReplyError e ->
     snd (fst r) = Rejected RRequestFailed /\ snd r = Threw)
  /\ (forall statusCode body,
        network (trace (caseStarted cfg cid w)) (caseRequest cfg cid w)
        = ReplyOk statusCode body ->
        (300 <= statusCode)%Z ->
        snd (fst r) = Rejected (RStatus statusCode)).
Proof.
  intros Hnew r. subst r. rewrite getCase_started by exact Hnew.
  split.
  - intros e Hnet. unfold getCaseCallback. rewrite Hnet. split; reflexivity.
  - intros st body Hnet Hst. unfold getCaseCallback. rewrite Hnet.
    destruct (Z.leb_spec 300 st) as [_|Hlt]; [|lia].
    match goal with
    | |- context [downloadImages network cfg caller ?pr cid ?acts ?links ?w2] =>
        destruct (downloadImages network cfg caller pr cid acts links w2)
          as [w3 ending]
    end.
    destruct (hasBanner (cheerio body)); destruct ending; reflexivity.
Qed.

(** C3, against the claim: case 2 is answered with status 200 and the
    banner [No case found].  The fetch is rejected with an error whose
    text names the case and not the banner, and the raw page, the
    per-case files and both stores have been written. *)
Lemma getCase_banner_writes_artifacts :
  let r := getCase Moment.format_mdy exampleCheerio exampleNetwork
                   exampleConfig Single case2 emptyWorld in
  snd (fst r) = Rejected (RSearch case2)
  /\ reasonText (RSearch case2) = js "Error searching for CR1900002"
  /\ written (trace (fst (fst r)))
     = [PCaseDownloads; PRawHtml case2; PCaseDownloads;
        PCostsCsv case2; PActionsCsv case2; PCaseCsv case2; PCaseJson case2;
        PActionsStore; PSummaryStore]
  /\ existsSync (fst (fst r)) (PRawHtml case2) = true.
Proof. repeat split; vm_compute; reflexivity. Qed.

(** C3, as amended: a response with a success status and an error banner
    makes [getCase] reject with an [Error] object whose message is
    [Error searching for] followed by the case id, unlike the plain
    strings of the transport failures; the banner text is logged, not
    carried by the error; and the raw page has been written to disk
    before the banner is looked for. *)
Theorem getCase_banner_rejects
        (formatDate : jsstring -> jsstring) (cheerio : jsstring -> Page)
        (network : list Event -> Request -> Reply) (cfg : Config)
        (caller : Caller) (cid : jsstring) (w : World)
        (statusCode : Z) (body : jsstring) :
  argvNew cfg && existsSync w (PRawHtml cid) = false ->
  network (trace (caseStarted cfg cid w)) (caseRequest cfg cid w)
  = ReplyOk statusCode body ->
  (statusCode < 300)%Z ->
  hasBanner (cheerio body) = true ->
  let r := getCase formatDate cheerio network cfg caller cid w in
  snd (fst r) = Rejected (RSearch cid)
  /\ isErrorObject (RSearch cid) = true
  /\ isErrorObject RRequestFailed = false
  /\ (forall code, isErrorObject (RStatus code) = false)
  /\ reasonText (RSearch cid) = js "Error searching for " ++ cid
  /\ exists post,
       trace (fst (fst r))
       = trace w ++ caseStartEvents cfg cid w
         ++ [EvWrite (PRawHtml cid) (CBody body);
             EvLog (LogSearchBanner
                      (trim (replaceFirstSpaces (errorText (cheerio body)))));
             EvLog (LogSearchHint cid)]
         ++ post.
Proof.
  intros Hnew Hnet Hst Hb r. subst r.
  rewrite getCase_started by exact Hnew.
  split.
  { eapply getCaseCallback_banner_promise; eassumption. }
  repeat (split; [reflexivity|]).
  destruct (getCaseCallback_ok_trace formatDate cheerio network cfg caller cid
              (<[cid := true]> (loadMarkers w PCaseDownloads))
              (caseRequest cfg cid w) (caseStarted cfg cid w)
              statusCode body Hnet) as [post Hpost].
  eexists. rewrite Hpost. unfold bannerEvents. rewrite Hb.
  unfold caseStarted. cbn [trace]. rewrite <- !app_assoc. cbn [app].
  reflexivity.
Qed.

Lemma getCase_banner_rejects_witness :
  snd (fst (getCase Moment.format_mdy exampleCheerio exampleNetwork
              exampleConfig Batch case2 emptyWorld))
  = Rejected (RSearch case2).
Proof.
  apply (getCase_banner_rejects
           Moment.format_mdy exampleCheerio exampleNetwork exampleConfig
           Batch case2 emptyWorld 200 (js "banner")).
  - vm_compute. reflexivity.
  - vm_compute. reflexivity.
  - lia.
  - vm_compute. reflexivity.
Defined.

(** C4, against the claim: in the fetch of case 4 the narrative is parsed
    (event 4) before the marker of the case is written back as false
    (event 5), and the marker of the attachment is written back as false
    (event 8) before the attachment is written to disk (event 9). *)
Lemma marker_cleared_out_of_order :
  let t := trace (fst (fst (getCase Moment.format_mdy exampleCheerio
                              exampleNetwork exampleConfig Single case4
                              emptyWorld))) in
  position (writesTo (PRawHtml case4)) t = Some 3%nat
  /\ position isParse t = Some 4%nat
  /\ position (clearsMarker PCaseDownloads case4) t = Some 5%nat
  /\ position (clearsMarker PActionDownloads (actionKey case4 (js "ab12"))) t
     = Some 8%nat
  /\ position (writesTo (PAttachment case4
                           (js "unknown-date--CR1900004_ab12.pdf"))) t
     = Some 9%nat.
Proof. repeat split; vm_compute; reflexivity. Qed.

(** C4, as amended: a case fetch that receives a response writes the
    marker of the case as true before it issues the request, and writes
    it back as false only after the raw page has been written to disk and
    the narrative has been parsed; an attachment download writes its
    marker as true before it issues the request, leaves it true when the
    request fails, and writes it back as false when the request
    succeeds. *)
Theorem marker_discipline
        (formatDate : jsstring -> jsstring) (cheerio : jsstring -> Page)
        (network : list Event -> Request -> Reply) (cfg : Config)
        (caller : Caller) (cid href aid : jsstring) (acts : list Action)
        (w : World) :
  (forall statusCode body,
     argvNew cfg && existsSync w (PRawHtml cid) = false ->
     network (trace (caseStarted cfg cid w)) (caseRequest cfg cid w)
     = ReplyOk statusCode body ->
     exists pre post,
       trace (fst (fst (getCase formatDate cheerio network cfg caller cid w)))
       = trace w ++ pre
         ++ [EvWrite PCaseDownloads
               (CMarkers (<[cid := true]> (loadMarkers w PCaseDownloads)));
             EvLog (LogGetting cid);
             EvRequest (caseRequest cfg cid w);
             EvWrite (PRawHtml cid) (CBody body)]
         ++ bannerEvents cid (cheerio body)
         ++ [EvParseActions cid;
             EvWrite PCaseDownloads
               (CMarkers (<[cid := false]>
                            (<[cid := true]> (loadMarkers w PCaseDownloads))))]
         ++ post
       /\ Forall (fun e => exists m, e = EvLog m) pre)
  /\ (let started := downloadActionStart cfg cid href aid acts w in
      let finished :=
        downloadActionCallback network cid href aid (snd started) (fst started) in
      let key := actionKey cid aid in
      trace (fst started) = trace w ++ actionStartEvents cfg cid href aid w
      /\ marked (loadMarkers (fst started) PActionDownloads) key = true
      /\ (snd finished <> Resolved tt ->
          fst finished = fst started)
      /\ (snd finished = Resolved tt ->
          marked (loadMarkers (fst finished) PActionDownloads) key = false)).
Proof.
  split.
  - intros st body Hnew Hnet.
    rewrite getCase_started by exact Hnew.
    destruct (getCaseCallback_ok_trace formatDate cheerio network cfg caller cid
                (<[cid := true]> (loadMarkers w PCaseDownloads))
                (caseRequest cfg cid w) (caseStarted cfg cid w)
                st body Hnet) as [post Hpost].
    exists (if marked (loadMarkers w PCaseDownloads) cid
            then [EvLog (LogCaseNotFinished cid)] else []), post.
    split.
    + rewrite Hpost. unfold caseStarted, caseStartEvents. cbn [trace].
      rewrite <- !app_assoc. reflexivity.
    + destruct (marked _ cid); repeat constructor. eexists. reflexivity.
  - cbv zeta.
    split; [apply downloadActionStart_trace|].
    assert (loadMarkers (fst (downloadActionStart cfg cid href aid acts w))
                        PActionDownloads
            = <[actionKey cid aid := true]> (loadMarkers w PActionDownloads))
      as Hm.
    { unfold downloadActionStart. cbn [fst]. unfold emit, loadMarkers, readFile.
      simpl. reflexivity. }
    split.
    { rewrite Hm. unfold marked. rewrite lookup_insert_eq. reflexivity. }
    unfold downloadActionCallback.
    destruct (network _ _) as [e|st body].
    { split; [reflexivity|discriminate]. }
    destruct (300 <=? st)%Z.
    { split; [reflexivity|discriminate]. }
    split; [intros Hne; exfalso; apply Hne; reflexivity|].
    intros _. cbn [fst].
    rewrite readFile_markers_after_attachment.
    unfold marked. rewrite lookup_insert_eq. reflexivity.
Qed.

Lemma marker_discipline_witness :
  exists pre post,
    trace (fst (fst (getCase Moment.format_mdy exampleCheerio exampleNetwork
                       exampleConfig Single case4 emptyWorld)))
    = trace emptyWorld ++ pre
      ++ [EvWrite PCaseDownloads
            (CMarkers (<[case4 := true]> (loadMarkers emptyWorld PCaseDownloads)));
          EvLog (LogGetting case4);
          EvRequest (caseRequest exampleConfig case4 emptyWorld);
          EvWrite (PRawHtml case4) (CBody (js "linked"))]
      ++ bannerEvents case4 (exampleCheerio (js "linked"))
      ++ [EvParseActions case4;
          EvWrite PCaseDownloads
            (CMarkers (<[case4 := false]>
                         (<[case4 := true]>
                            (loadMarkers emptyWorld PCaseDownloads))))]
      ++ post
    /\ Forall (fun e => exists m, e = EvLog m) pre.
Proof.
  apply (proj1 (marker_discipline
                  Moment.format_mdy exampleCheerio exampleNetwork
                  exampleConfig Single case4 [] [] [] emptyWorld)
               200%Z (js "linked")).
  - vm_compute. reflexivity.
  - vm_compute. reflexivity.
Defined.

(** A link that does not match the pattern of the attachment id ends the
    loop with a thrown error, whatever links follow. *)
Lemma downloadImages_throws {A}
      (network : list Event -> Request -> Reply) (cfg : Config)
      (caller : Caller) (pr : Promise A) (cid href : jsstring)
      (acts : list Action) (rest : list (option jsstring)) (w : World) :
  linkMatch href = None ->
  downloadImages network cfg caller pr cid acts (Some href :: rest) w
  = (w, Threw).
Proof. intros H. rewrite downloadImages_cons. simpl. rewrite H. reflexivity. Qed.

(** C8: the page of case 3 has two attachment links, the first without an
    [id] parameter.  Reading group 1 of the failed match throws outside
    the [try]: the callback stops there, the promise of [getCase] is
    never settled, the second link is not downloaded and none of the
    per-case files or stores is written, instead of the link being
    skipped with a warning. *)
Theorem getCase_link_without_id_throws :
  let r := getCase Moment.format_mdy exampleCheerio exampleNetwork
                   exampleConfig Single case3 emptyWorld in
  linkMatch (js "/doc?x=1") = None
  /\ linkMatch (js "/doc?id=ab12&t=1") = Some (js "ab12")
  /\ snd r = Threw
  /\ snd (fst r) = Pending
  /\ requests (trace (fst (fst r))) = [caseRequest exampleConfig case3 emptyWorld]
  /\ written (trace (fst (fst r)))
     = [PCaseDownloads; PRawHtml case3; PCaseDownloads].
Proof. repeat split; vm_compute; reflexivity. Qed.

Section BatchFacts.

Variable formatDate : jsstring -> jsstring.
Variable cheerio : jsstring -> Page.
Variable network : list Event -> Request -> Reply.
Variable cfg : Config.

(** The loop over the rows that were fetched goes on with the rest. *)
Lemma getCasesLoop_app (pre rest : list jsstring) :
  forall w w1,
    getCasesLoop formatDate cheerio network cfg pre w = (w1, Finished) ->
    getCasesLoop formatDate cheerio network cfg (pre ++ rest) w
    = getCasesLoop formatDate cheerio network cfg rest w1.
Proof.
  induction pre as [|row pre IH]; intros w w1; simpl.
  - intros [= <-]. reflexivity.
  - destruct (truthy row); [|apply IH].
    destruct (getCase formatDate cheerio network cfg Batch row w)
      as [[w2 pr] ending].
    destruct pr as [|v|e]; [discriminate|apply IH|].
    destruct (argvTrace cfg); discriminate.
Qed.

End BatchFacts.

(** C2, against the claim: the first case of the CSV is answered with
    status 500; the run ends with exit code 1 and the second case is
    never requested. *)
Lemma getCases_aborts_on_failure :
  let r := getCases Moment.format_mdy exampleCheerio exampleNetwork
                    exampleConfig (Some [case1; case4]) emptyWorld in
  snd r = Exited 1
  /\ requests (trace (fst r)) = [caseRequest exampleConfig case1 emptyWorld]
  /\ last (trace (fst r)) = Some (EvExit 1).
Proof. repeat split; vm_compute; reflexivity. Qed.

(** C2, as amended: when the fetch of a case id of the CSV is rejected,
    the batch run logs the error if tracing is on and ends the process
    with exit code 1; the rows after it are not processed, whatever they
    are.  Without the endpoint in the configuration the program stops
    before it has done anything. *)
Theorem getCases_stops_at_first_failure
        (formatDate : jsstring -> jsstring) (cheerio : jsstring -> Page)
        (network : list Event -> Request -> Reply) (cfg : Config)
        (pre rest : list jsstring) (row : jsstring) (w w1 w2 : World)
        (e : Reason) (ending : Ending) (argv : Argv) :
  (getCasesLoop formatDate cheerio network cfg pre w = (w1, Finished) ->
   truthy row = true ->
   getCase formatDate cheerio network cfg Batch row w1
   = (w2, Rejected e, ending) ->
   getCasesLoop formatDate cheerio network cfg (pre ++ row :: rest) w
   = (emit (EvExit 1) (if argvTrace cfg then log (LogCaught e) w2 else w2),
      Exited 1))
  /\ (truthy_opt (SCRAPER_CASES_URL cfg) = false ->
      program formatDate cheerio network cfg argv w = (w, ConfigError)).
Proof.
  split.
  - intros Hpre Hrow Hcase.
    rewrite (getCasesLoop_app formatDate cheerio network cfg pre (row :: rest)
               w w1 Hpre).
    simpl. rewrite Hrow, Hcase. reflexivity.
  - intros Hurl. unfold program. rewrite Hurl. reflexivity.
Qed.

Lemma getCases_stops_at_first_failure_witness :
  getCasesLoop Moment.format_mdy exampleCheerio exampleNetwork exampleConfig
               ([] ++ case1 :: [case4]) emptyWorld
  = (emit (EvExit 1)
       (fst (fst (getCase Moment.format_mdy exampleCheerio exampleNetwork
                    exampleConfig Batch case1 emptyWorld))),
     Exited 1)
  /\ program Moment.format_mdy exampleCheerio exampleNetwork
             exampleConfigNoUrl (mkArgv None (Some (Some [case1; case4])))
             emptyWorld
     = (emptyWorld, ConfigError).
Proof.
  split.
  - apply (proj1 (getCases_stops_at_first_failure
                    Moment.format_mdy exampleCheerio exampleNetwork
                    exampleConfig [] [case4] case1 emptyWorld emptyWorld
                    (fst (fst (getCase Moment.format_mdy exampleCheerio
                                 exampleNetwork exampleConfig Batch case1
                                 emptyWorld)))
                    (RStatus 500) Completed (mkArgv None None))).
    + reflexivity.
    + reflexivity.
    + vm_compute. reflexivity.
  - apply (proj2 (getCases_stops_at_first_failure
                    Moment.format_mdy exampleCheerio exampleNetwork
                    exampleConfigNoUrl [] [] [] emptyWorld emptyWorld emptyWorld
                    RRequestFailed Completed
                    (mkArgv None (Some (Some [case1; case4]))))).
    reflexivity.
Defined.

(** ** Further properties of [parseActions] *)

Arguments parsePart : simpl never.

Section ParseLoopFacts.

Variable formatDate : jsstring -> jsstring.
Variable cid : jsstring.

Lemma parseActions_chunks (text : jsstring) :
  parseActions formatDate text cid = parseChunks formatDate cid (chunks text).
Proof.
  unfold parseActions, parseChunks, chunks.
  destruct (Regex.match_all _ _ _); reflexivity.
Qed.

(** A chunk that opens an action pushes the accumulator and starts a new
    one; any other chunk leaves the array and keeps the date of the
    accumulator, and what it does depends on the accumulator only. *)
Lemma parsePart_opening (acts : list Action) (acc : Action) (p : jsstring) :
  opensAction p = true ->
  exists tok ty,
    parsePart formatDate cid (acts, acc) p
    = (acts ++ [acc],
       mkAction (Some cid) (Some (formatDate tok)) (Some ty)
                None None None None).
Proof.
  unfold opensAction, parsePart. intros H.
  apply andb_prop in H as [Ht Hb]. rewrite Ht. simpl.
  destruct (Regex.match_first _ Patterns.beginningRe _) as [b|];
    [|discriminate].
  eexists _, _. reflexivity.
Qed.

Lemma parsePart_other (acts : list Action) (acc : Action) (p : jsstring) :
  opensAction p = false ->
  exists acc',
    (forall acts', parsePart formatDate cid (acts', acc) p = (acts', acc'))
    /\ date acc' = date acc.
Proof.
  unfold opensAction, parsePart. intros H.
  destruct (truthy (trim p)); simpl in *.
  - destruct (Regex.match_first _ Patterns.beginningRe _) as [b|];
      [discriminate|].
    destruct (Regex.match_first _ Patterns.initiatedRe _);
      [|destruct (Regex.match_first _ Patterns.imageRe _)];
      (eexists; split; [intros acts'; reflexivity|reflexivity]).
  - exists acc. split; [intros acts'; reflexivity|reflexivity].
Qed.

(** The array only grows, at its end. *)
Lemma fold_parsePart_grows (parts : list jsstring) :
  forall st, exists l,
    fst (fold_left (parsePart formatDate cid) parts st) = fst st ++ l.
Proof.
  induction parts as [|p parts IH]; intros [acts acc]; simpl.
  - exists []. symmetry. apply app_nil_r.
  - destruct (opensAction p) eqn:Ho.
    + destruct (parsePart_opening acts acc p Ho) as (tok & ty & ->).
      destruct (IH (acts ++ [acc],
                    mkAction (Some cid) (Some (formatDate tok)) (Some ty)
                             None None None None)) as [l Hl].
      exists ([acc] ++ l). rewrite Hl. simpl. rewrite <- app_assoc. reflexivity.
    + destruct (parsePart_other acts acc p Ho) as (acc' & -> & _).
      apply (IH (acts, acc')).
Qed.

(** The number of dated actions in the array after the loop. *)
Lemma fold_parsePart_count (parts : list jsstring) :
  (forall tok, truthy (formatDate tok) = true) ->
  forall acts acc,
    length (List.filter hasDate
              (fst (fold_left (parsePart formatDate cid) parts (acts, acc))))
    = (length (List.filter hasDate acts)
       + if hasDate acc then length (List.filter opensAction parts)
         else pred (length (List.filter opensAction parts)))%nat.
Proof.
  intros Hfmt.
  induction parts as [|p parts IH]; intros acts acc; simpl.
  - destruct (hasDate acc); simpl; lia.
  - destruct (opensAction p) eqn:Ho.
    + destruct (parsePart_opening acts acc p Ho) as (tok & ty & ->).
      rewrite IH. unfold hasDate at 2. simpl. rewrite Hfmt.
      rewrite List.filter_app, length_app. simpl.
      destruct (hasDate acc); simpl; lia.
    + destruct (parsePart_other acts acc p Ho) as (acc' & -> & Hd).
      rewrite IH. unfold hasDate at 2 4. rewrite Hd. reflexivity.
Qed.

(** Accumulators without a date are interchangeable. *)
Lemma fold_parsePart_undated (parts : list jsstring) :
  forall acts1 acts2 acc1 acc2,
    List.filter hasDate acts1 = List.filter hasDate acts2 ->
    acc1 = acc2 \/ (date acc1 = None /\ date acc2 = None) ->
    List.filter hasDate
      (fst (fold_left (parsePart formatDate cid) parts (acts1, acc1)))
    = List.filter hasDate
        (fst (fold_left (parsePart formatDate cid) parts (acts2, acc2))).
Proof.
  induction parts as [|p parts IH]; intros acts1 acts2 acc1 acc2 Ha Hacc;
    simpl; [exact Ha|].
  destruct (opensAction p) eqn:Ho.
  - destruct (parsePart_opening acts1 acc1 p Ho) as (tok & ty & H1).
    destruct (parsePart_opening acts2 acc2 p Ho) as (tok2 & ty2 & H2).
    assert (forall a b, exists o,
              parsePart formatDate cid (a, b) p = (a ++ [b], o)
              /\ o = snd (parsePart formatDate cid ([], emptyAction) p)) as Hsame.
    { intros a b. unfold parsePart. unfold opensAction in Ho.
      apply andb_prop in Ho as [Ht Hb]. rewrite Ht. simpl.
      destruct (Regex.match_first _ Patterns.beginningRe _); [|discriminate].
      eexists. split; reflexivity. }
    destruct (Hsame acts1 acc1) as (o1 & -> & ->).
    destruct (Hsame acts2 acc2) as (o2 & -> & ->).
    apply IH; [|left; reflexivity].
    rewrite !List.filter_app. rewrite Ha. f_equal.
    destruct Hacc as [->|[Hd1 Hd2]]; [reflexivity|].
    simpl. unfold hasDate. rewrite Hd1, Hd2. reflexivity.
  - destruct (parsePart_other acts1 acc1 p Ho) as (a1 & E1 & Hd1).
    destruct (parsePart_other acts2 acc2 p Ho) as (a2 & E2 & Hd2).
    rewrite E1, E2. apply IH; [exact Ha|].
    destruct Hacc as [->|[H1 H2]].
    + left. specialize (E1 []). specialize (E2 []).
      rewrite E1 in E2. injection E2 as ->. reflexivity.
    + right. rewrite Hd1, Hd2. split; assumption.
Qed.

End ParseLoopFacts.

Lemma format_mdy_truthy (tok : jsstring) :
  truthy (Moment.format_mdy tok) = true.
Proof.
  unfold Moment.format_mdy.
  destruct (Moment.parse_mdy tok) as [[[y m] d]|]; reflexivity.
Qed.

(** X1: when the date library never formats to the empty string, the
    number of actions returned is one less than the number of chunks that
    begin with a date (and zero when there is none): the action opened by
    the last such chunk is never returned. *)
Theorem parseActions_drops_last
        (formatDate : jsstring -> jsstring) (text cid : jsstring) :
  (forall tok, truthy (formatDate tok) = true) ->
  length (parseActions formatDate text cid)
  = pred (length (List.filter opensAction (chunks text))).
Proof.
  intros Hfmt. rewrite parseActions_chunks. unfold parseChunks.
  rewrite fold_parsePart_count by exact Hfmt. reflexivity.
Qed.

Lemma parseActions_drops_last_witness :
  length (parseActions Moment.format_mdy narrativeLines exampleCaseId)
  = pred (length (List.filter opensAction (chunks narrativeLines))).
Proof.
  apply (parseActions_drops_last Moment.format_mdy narrativeLines exampleCaseId).
  intros tok. apply format_mdy_truthy.
Defined.

Lemma fold_parsePart_leading (formatDate : jsstring -> jsstring)
      (cid : jsstring) (pre : list jsstring) :
  Forall (fun p => opensAction p = false) pre ->
  forall acts acc, exists acc',
    fold_left (parsePart formatDate cid) pre (acts, acc) = (acts, acc')
    /\ date acc' = date acc.
Proof.
  induction 1 as [|p pre Hp _ IH]; intros acts acc; simpl.
  - exists acc. split; reflexivity.
  - destruct (parsePart_other formatDate cid acts acc p Hp) as (a1 & -> & Hd).
    destruct (IH acts a1) as (a2 & -> & Hd2).
    exists a2. split; [reflexivity|]. rewrite Hd2. exact Hd.
Qed.

(** X2: the chunks that come before the first chunk beginning with a date
    (initiator, image and other lines) are discarded: the result is that
    of the remaining chunks alone. *)
Theorem parseActions_leading_discarded
        (formatDate : jsstring -> jsstring) (text cid : jsstring)
        (pre rest : list jsstring) :
  chunks text = pre ++ rest ->
  Forall (fun p => opensAction p = false) pre ->
  parseActions formatDate text cid = parseChunks formatDate cid rest.
Proof.
  intros Hc Hpre. rewrite parseActions_chunks, Hc. unfold parseChunks.
  rewrite fold_left_app.
  destruct (fold_parsePart_leading formatDate cid pre Hpre [] emptyAction)
    as (acc' & -> & Hd).
  apply fold_parsePart_undated; [reflexivity|].
  right. split; [exact Hd|reflexivity].
Qed.

Lemma parseActions_leading_discarded_witness :
  parseActions Moment.format_mdy narrativeLeading exampleCaseId
  = parseChunks Moment.format_mdy exampleCaseId
      [js "1/1/2021 Summons Issued"; js "2/2/2021 Hearing"].
Proof.
  apply (parseActions_leading_discarded
           Moment.format_mdy narrativeLeading exampleCaseId
           [js "This action initiated by Plaintiff"]).
  - vm_compute. reflexivity.
  - repeat constructor.
Defined.

(** On that narrative the initiator line is lost and only the first dated
    action is returned. *)
Lemma parseActions_leading_example :
  parseActions Moment.format_mdy narrativeLeading exampleCaseId
  = [summonsIssued].
Proof. vm_compute. reflexivity. Qed.

(** X3: the actions returned for a narrative are kept, in the same order
    and unchanged, at the head of the result for any narrative whose
    chunks continue its chunks. *)
Theorem parseActions_stable_prefix
        (formatDate : jsstring -> jsstring) (text text' cid : jsstring)
        (more : list jsstring) :
  chunks text' = chunks text ++ more ->
  exists suffix,
    parseActions formatDate text' cid
    = parseActions formatDate text cid ++ suffix.
Proof.
  intros Hc. rewrite !parseActions_chunks, Hc. unfold parseChunks.
  rewrite fold_left_app.
  destruct (fold_parsePart_grows formatDate cid more
              (fold_left (parsePart formatDate cid) (chunks text)
                         ([], emptyAction))) as [l Hl].
  rewrite Hl, List.filter_app. eexists. reflexivity.
Qed.

Lemma parseActions_stable_prefix_witness :
  exists suffix,
    parseActions Moment.format_mdy
                 (narrativeLines ++ [10] ++ js "3/3/2020 Closed") exampleCaseId
    = parseActions Moment.format_mdy narrativeLines exampleCaseId ++ suffix.
Proof.
  apply (parseActions_stable_prefix Moment.format_mdy narrativeLines
           (narrativeLines ++ [10] ++ js "3/3/2020 Closed") exampleCaseId
           [js "3/3/2020 Closed"]).
  vm_compute. reflexivity.
Defined.

(** ** Further properties of the program *)

(** X4: the three fields of the search form, put back together, are the
    case id; for an id of at least four characters the type and the year
    have two characters each. *)
Theorem caseForm_join (cid : jsstring) :
  fst (fst (caseForm cid)) ++ snd (fst (caseForm cid)) ++ snd (caseForm cid)
  = cid
  /\ ((4 <= length cid)%nat ->
      length (fst (fst (caseForm cid))) = 2%nat
      /\ length (snd (fst (caseForm cid))) = 2%nat).
Proof.
  unfold caseForm. cbn [fst snd]. split.
  - replace (drop 4 cid) with (drop 2 (drop 2 cid))
      by (rewrite drop_drop; reflexivity).
    rewrite (take_drop 2 (drop 2 cid)). apply take_drop.
  - intros H. rewrite !length_take, length_drop. lia.
Qed.

Lemma caseForm_join_witness :
  length (fst (fst (caseForm case4))) = 2%nat
  /\ length (snd (fst (caseForm case4))) = 2%nat.
Proof.
  apply (proj2 (caseForm_join case4)). vm_compute. lia.
Defined.

Section FileFacts.

Variable formatDate : jsstring -> jsstring.
Variable cheerio : jsstring -> Page.
Variable network : list Event -> Request -> Reply.
Variable cfg : Config.

(** The file of the case markers is not written by the attachment
    downloads nor by [saveCase]. *)
Lemma downloadActionStart_keeps (cid href aid : jsstring) (acts : list Action)
      (w : World) :
  readFile (fst (downloadActionStart cfg cid href aid acts w)) PCaseDownloads
  = readFile w PCaseDownloads.
Proof.
  unfold downloadActionStart. cbn [fst].
  destruct (marked _ _); reflexivity.
Qed.

Lemma downloadActionCallback_keeps (cid href aid : jsstring)
      (d : ActionDownload) (w : World) :
  readFile (fst (downloadActionCallback network cid href aid d w)) PCaseDownloads
  = readFile w PCaseDownloads.
Proof.
  unfold downloadActionCallback.
  destruct (network _ _) as [e|st body]; [reflexivity|].
  destruct (300 <=? st)%Z; reflexivity.
Qed.

Lemma downloadImages_keeps {A} (caller : Caller) (pr : Promise A)
      (cid : jsstring) (acts : list Action) (links : list (option jsstring)) :
  forall w,
    readFile (fst (downloadImages network cfg caller pr cid acts links w))
             PCaseDownloads
    = readFile w PCaseDownloads.
Proof.
  induction links as [|a rest IH]; intros w; [reflexivity|].
  rewrite downloadImages_cons.
  destruct (a ≫= _) as [[href aid]|]; [|reflexivity].
  pose proof (downloadActionStart_keeps cid href aid acts w) as Hs.
  destruct (downloadActionStart cfg cid href aid acts w) as [w1 d].
  cbn [fst] in Hs.
  destruct (exitsWhileWaiting caller pr); [exact Hs|].
  pose proof (downloadActionCallback_keeps cid href aid d w1) as Hc.
  destruct (downloadActionCallback network cid href aid d w1) as [w2 res].
  cbn [fst] in Hc. rewrite IH.
  destruct res; (etransitivity; [|exact Hs]); (etransitivity; [|exact Hc]);
    reflexivity.
Qed.

Lemma saveCase_keeps (cid : jsstring) (data : CaseData) (w : World) :
  readFile (fst (saveCase cid data w)) PCaseDownloads
  = readFile w PCaseDownloads.
Proof. reflexivity. Qed.

Lemma loadMarkers_readFile (w w' : World) (p : Path) :
  readFile w' p = readFile w p -> loadMarkers w' p = loadMarkers w p.
Proof. intros H. unfold loadMarkers. rewrite H. reflexivity. Qed.

End FileFacts.

Section MarkerFacts.

Variable formatDate : jsstring -> jsstring.
Variable cheerio : jsstring -> Page.
Variable network : list Event -> Request -> Reply.
Variable cfg : Config.

(** After the callback on a response the file of the case markers holds
    the map written at line 337. *)
Lemma getCaseCallback_ok_markers (caller : Caller) (cid : jsstring)
      (cd : gmap jsstring bool) (req : Request) (w : World)
      (statusCode : Z) (body : jsstring) :
  network (trace w) req = ReplyOk statusCode body ->
  loadMarkers (fst (fst (getCaseCallback formatDate cheerio network cfg
                           caller cid cd req w))) PCaseDownloads
  = <[cid := false]> cd.
Proof.
  intros Hnet. unfold getCaseCallback. rewrite Hnet.
  match goal with
  | |- context [downloadImages network cfg caller ?pr cid ?acts ?links ?w2] =>
      pose proof (downloadImages_keeps network cfg caller pr cid acts links w2)
        as Hk;
      assert (loadMarkers w2 PCaseDownloads = <[cid := false]> cd) as Hw2
        by apply loadMarkers_write;
      apply loadMarkers_readFile in Hk; rewrite Hw2 in Hk; clear Hw2;
      destruct (downloadImages network cfg caller pr cid acts links w2)
        as [w3 ending]
  end.
  cbn [fst] in Hk.
  destruct ending; [|exact Hk|exact Hk].
  match goal with
  | |- context [saveCase cid ?data w3] =>
      pose proof (saveCase_keeps cid data w3) as Hs;
      apply loadMarkers_readFile in Hs;
      destruct (saveCase cid data w3) as [w4 data']
  end.
  cbn [fst] in Hs |- *. rewrite Hs. exact Hk.
Qed.

End MarkerFacts.

(** X5: after [getCase] the marker of the case is false exactly when the
    request was issued and got a response, of whatever status and with or
    without a banner; it is true after a request error and after a fetch
    skipped by [--new].  The markers of all other cases are as before. *)
Theorem getCase_marker_after
        (formatDate : jsstring -> jsstring) (cheerio : jsstring -> Page)
        (network : list Event -> Request -> Reply) (cfg : Config)
        (caller : Caller) (cid : jsstring) (w : World) :
  loadMarkers (fst (fst (getCase formatDate cheerio network cfg caller cid w)))
              PCaseDownloads
  = <[cid := negb (caseResponded network cfg cid w)]>
      (loadMarkers w PCaseDownloads).
Proof.
  unfold caseResponded.
  destruct (argvNew cfg && existsSync w (PRawHtml cid)) eqn:Hnew.
  - apply andb_prop in Hnew as [Hn He].
    rewrite getCase_skipped by assumption. cbn [fst negb].
    unfold log, emit, loadMarkers, readFile. simpl. reflexivity.
  - rewrite getCase_started by exact Hnew.
    destruct (network (trace (caseStarted cfg cid w)) (caseRequest cfg cid w))
      as [e|st body] eqn:Hnet.
    + unfold getCaseCallback. rewrite Hnet. cbn [fst negb]. reflexivity.
    + rewrite (getCaseCallback_ok_markers formatDate cheerio network cfg caller
                 cid _ _ _ st body Hnet).
      cbn [negb]. apply insert_insert_eq.
Qed.

(** A response with status 500 still clears the marker of the case, and
    the marker of another case is not touched. *)
Lemma getCase_marker_after_failure :
  let w := mkWorld [(PCaseDownloads, CMarkers {[case4 := true]})] ∅ ∅ [] in
  let r := getCase Moment.format_mdy exampleCheerio exampleNetwork
                   exampleConfig Single case1 w in
  snd (fst r) = Rejected (RStatus 500)
  /\ marked (loadMarkers (fst (fst r)) PCaseDownloads) case1 = false
  /\ marked (loadMarkers (fst (fst r)) PCaseDownloads) case4 = true.
Proof. repeat split; vm_compute; reflexivity. Qed.

Lemma requests_app (t1 t2 : list Event) :
  requests (t1 ++ t2) = requests t1 ++ requests t2.
Proof. apply omap_app. Qed.

Lemma written_app (t1 t2 : list Event) :
  written (t1 ++ t2) = written t1 ++ written t2.
Proof. apply omap_app. Qed.

Section LinkFacts.

Variable network : list Event -> Request -> Reply.
Variable cfg : Config.

Lemma downloadActionCallback_requests (cid href aid : jsstring)
      (d : ActionDownload) (w : World) :
  requests (trace (fst (downloadActionCallback network cid href aid d w)))
  = requests (trace w).
Proof.
  unfold downloadActionCallback.
  destruct (network _ _) as [e|st body]; [reflexivity|].
  destruct (300 <=? st)%Z; [reflexivity|].
  cbn [fst]. unfold writeFileSync. cbn [trace].
  rewrite !requests_app. cbn. rewrite !app_nil_r. reflexivity.
Qed.

(** While the process is not ending, a list of well-formed links is
    walked to its end, with one request per link, in order. *)
Lemma downloadImages_walk {A} (caller : Caller) (pr : Promise A)
      (cid : jsstring) (acts : list Action) (links : list (option jsstring)) :
  forallb wellFormedLink links = true ->
  exitsWhileWaiting caller pr = false ->
  forall w,
    snd (downloadImages network cfg caller pr cid acts links w) = Completed
    /\ exists reqs,
         requests (trace (fst (downloadImages network cfg caller pr cid acts
                                 links w)))
         = requests (trace w) ++ reqs
         /\ map (fun r => Some (url r)) reqs
            = map (fun a => LinkUrl <$> a) links.
Proof.
  intros Hwf Hex.
  induction links as [|a rest IH]; intros w.
  - split; [reflexivity|]. exists []. split; [|reflexivity].
    symmetry. apply app_nil_r.
  - simpl in Hwf. apply andb_prop in Hwf as [Ha Hrest].
    specialize (IH Hrest).
    destruct a as [href|]; [|discriminate]. simpl in Ha.
    destruct (linkMatch href) as [aid|] eqn:Hm; [|discriminate].
    assert (Some href ≫= (fun h => pair h <$> linkMatch h) = Some (href, aid))
      as Hbind by (simpl; rewrite Hm; reflexivity).
    rewrite downloadImages_cons, Hbind.
    pose proof (downloadActionStart_trace cfg cid href aid acts w) as Hs.
    destruct (downloadActionStart cfg cid href aid acts w) as [w1 d].
    cbn [fst] in Hs. rewrite Hex.
    pose proof (downloadActionCallback_requests cid href aid d w1) as Hc.
    destruct (downloadActionCallback network cid href aid d w1) as [w2 res].
    cbn [fst] in Hc. cbv beta iota zeta.
    match goal with
    | |- context [downloadImages network cfg caller pr cid acts rest ?w3] =>
        assert (requests (trace w3) = requests (trace w2)) as Hl
          by (destruct res; unfold log, emit; cbn [trace];
              rewrite ?requests_app; cbn; rewrite ?app_nil_r; reflexivity);
        destruct (IH w3) as (Hend & reqs & Hreqs & Hurls)
    end.
    split; [exact Hend|].
    exists (actionRequestOf cfg cid href aid w :: reqs).
    split; [|simpl; rewrite Hurls; reflexivity].
    rewrite Hreqs, Hl, Hc, Hs, requests_app, requests_actionStartEvents.
    rewrite <- app_assoc. reflexivity.
Qed.

End LinkFacts.

Lemma saveCase_written (cid : jsstring) (data : CaseData) (w : World) :
  written (trace (fst (saveCase cid data w)))
  = written (trace w) ++ savedPaths cid.
Proof.
  unfold saveCase, writeFileSync. cbn [fst trace].
  rewrite !written_app. cbn. rewrite <- !app_assoc. reflexivity.
Qed.

Lemma saveCase_data (cid : jsstring) (data : CaseData) (w : World) :
  snd (saveCase cid data w)
  = mkCaseData (dataCaseId data) (summaryText data) (parties data)
               (arrestingOfficers data) (schedule data) (costs data)
               (finances data) (actionsRaw data)
               (imap (withId cid) (actions data)).
Proof. reflexivity. Qed.

(** X7: a case fetch that gets a success status, without a banner, from
    a page whose attachment links all carry an id, runs to its end
    whatever happens to the attachment downloads: the promise is resolved
    with the data of the case, whose actions now carry their ids, and the
    last files written are the three CSV files and the JSON file of the
    case followed by the actions store and the summary store. *)
Theorem getCase_resolves
        (formatDate : jsstring -> jsstring) (cheerio : jsstring -> Page)
        (network : list Event -> Request -> Reply) (cfg : Config)
        (caller : Caller) (cid : jsstring) (w : World)
        (statusCode : Z) (body : jsstring) :
  argvNew cfg && existsSync w (PRawHtml cid) = false ->
  network (trace (caseStarted cfg cid w)) (caseRequest cfg cid w)
  = ReplyOk statusCode body ->
  (statusCode < 300)%Z ->
  hasBanner (cheerio body) = false ->
  forallb wellFormedLink (actionLinks (cheerio body)) = true ->
  let r := getCase formatDate cheerio network cfg caller cid w in
  snd r = Completed
  /\ exists data,
       snd (fst r) = Resolved (Some data)
       /\ dataCaseId data = cid
       /\ actions data
          = imap (withId cid)
                 (parseActions formatDate (trim (panelActions (cheerio body)))
                               cid)
       /\ exists pre, written (trace (fst (fst r))) = pre ++ savedPaths cid.
Proof.
  intros Hnew Hnet Hst Hb Hwf r. subst r.
  rewrite getCase_started by exact Hnew.
  unfold getCaseCallback. rewrite Hnet, Hb.
  destruct (Z.leb_spec 300 statusCode) as [Hge|_]; [lia|].
  match goal with
  | |- context [downloadImages network cfg caller ?pr cid ?acts ?links ?w2] =>
      destruct (downloadImages_walk network cfg caller pr cid acts links Hwf)
        with (w := w2) as [Hend _];
        [destruct caller; reflexivity|];
      destruct (downloadImages network cfg caller pr cid acts links w2)
        as [w3 ending]
  end.
  cbn [snd] in Hend. subst ending.
  match goal with
  | |- context [saveCase cid ?data w3] =>
      pose proof (saveCase_written cid data w3) as Hw;
      pose proof (saveCase_data cid data w3) as Hd;
      destruct (saveCase cid data w3) as [w4 data']
  end.
  cbn [fst snd] in Hw, Hd |- *.
  split; [reflexivity|].
  exists data'. split; [reflexivity|].
  subst data'. split; [reflexivity|]. split; [reflexivity|].
  eexists. exact Hw.
Qed.

Lemma getCase_resolves_witness :
  snd (getCase Moment.format_mdy exampleCheerio exampleNetwork exampleConfig
               Batch case4 emptyWorld) = Completed.
Proof.
  apply (getCase_resolves Moment.format_mdy exampleCheerio exampleNetwork
           exampleConfig Batch case4 emptyWorld 200 (js "linked")).
  - vm_compute. reflexivity.
  - vm_compute. reflexivity.
  - lia.
  - vm_compute. reflexivity.
  - vm_compute. reflexivity.
Defined.

Lemma written_caseStartEvents (cfg : Config) (cid : jsstring) (w : World) :
  written (caseStartEvents cfg cid w) = [PCaseDownloads].
Proof.
  unfold caseStartEvents. destruct (marked _ cid); reflexivity.
Qed.

Lemma written_bannerEvents (cid : jsstring) (page : Page) :
  written (bannerEvents cid page) = [].
Proof. unfold bannerEvents. destruct (hasBanner page); reflexivity. Qed.

(** X8: the transport failures of a case fetch.  On a request error the
    promise is rejected with the text [Error requesting Case URL.], the
    callback ends on a thrown error, and the marker file is the only file
    written.  On a response with a status of 300 or more the promise is
    rejected with the text of the status, and the callback goes on: the
    body is written as the raw page of the case and the marker file is
    written again. *)
Theorem getCase_transport_failure
        (formatDate : jsstring -> jsstring) (cheerio : jsstring -> Page)
        (network : list Event -> Request -> Reply) (cfg : Config)
        (caller : Caller) (cid : jsstring) (w : World) :
  argvNew cfg && existsSync w (PRawHtml cid) = false ->
  let r := getCase formatDate cheerio network cfg caller cid w in
  (forall e,
     network (trace (caseStarted cfg cid w)) (caseRequest cfg cid w)
     = ReplyError e ->
     r = (log (LogRequestError e) (caseStarted cfg cid w),
          Rejected RRequestFailed, Threw)
     /\ written (trace (fst (fst r))) = written (trace w) ++ [PCaseDownloads])
  /\ (forall statusCode body,
        network (trace (caseStarted cfg cid w)) (caseRequest cfg cid w)
        = ReplyOk statusCode body ->
        (300 <= statusCode)%Z ->
        snd (fst r) = Rejected (RStatus statusCode)
        /\ reasonText (RStatus statusCode)
           = js "Status response of Case URL: " ++ showZ statusCode
        /\ exists post,
             written (trace (fst (fst r)))
             = written (trace w)
               ++ [PCaseDownloads; PRawHtml cid; PCaseDownloads] ++ post).
Proof.
  intros Hnew r.
  pose proof (getCase_transport_rejections formatDate cheerio network cfg
                caller cid w Hnew) as [_ Hstatus].
  subst r. cbv zeta in Hstatus. split.
  - intros e Hnet. rewrite getCase_started by exact Hnew.
    unfold getCaseCallback. rewrite Hnet. split; [reflexivity|].
    cbn [fst]. unfold log, emit, caseStarted. cbn [trace].
    rewrite !written_app, written_caseStartEvents. cbn.
    rewrite app_nil_r. reflexivity.
  - intros st body Hnet Hst.
    split; [apply (Hstatus st body Hnet Hst)|].
    split; [reflexivity|].
    rewrite getCase_started by exact Hnew.
    destruct (getCaseCallback_ok_trace formatDate cheerio network cfg caller cid
                (<[cid := true]> (loadMarkers w PCaseDownloads))
                (caseRequest cfg cid w) (caseStarted cfg cid w)
                st body Hnet) as [post Hpost].
    exists (written post). rewrite Hpost.
    unfold caseStarted. cbn [trace].
    rewrite !written_app, written_caseStartEvents, written_bannerEvents.
    cbn. rewrite <- !app_assoc. reflexivity.
Qed.

Lemma getCase_transport_failure_witness :
  snd (fst (getCase Moment.format_mdy exampleCheerio exampleNetwork
              exampleConfig Single case1 emptyWorld))
  = Rejected (RStatus 500).
Proof.
  apply (proj2 (getCase_transport_failure
                  Moment.format_mdy exampleCheerio exampleNetwork
                  exampleConfig Single case1 emptyWorld eq_refl)
               500%Z []).
  - vm_compute. reflexivity.
  - lia.
Defined.

(** ** The two stores *)

Lemma js_inj (s1 s2 : string) : js s1 = js s2 -> s1 = s2.
Proof.
  revert s2. induction s1 as [|a s1 IH]; intros [|b s2]; simpl;
    try discriminate; [reflexivity|].
  intros [= Hab Hs]. f_equal; [|apply IH, Hs].
  apply (f_equal ascii_of_N) in Hab.
  rewrite !ascii_N_embedding in Hab. exact Hab.
Qed.

Lemma showNat_inj (i j : nat) : showNat i = showNat j -> i = j.
Proof.
  unfold showNat. intros H. apply js_inj in H.
  assert (forall n,
            Nat.of_uint <$> NilZero.uint_of_string
                              (NilZero.string_of_uint (Nat.to_uint n))
            = Some n) as Hdec.
  { intros n. pose proof (DecimalNat.Unsigned.of_to n) as Hn.
    destruct (Nat.to_uint n) eqn:E;
      try (rewrite NilZero.usu by discriminate; simpl; f_equal; exact Hn).
    simpl in Hn. subst n. reflexivity. }
  pose proof (Hdec i) as Hi. rewrite H, Hdec in Hi.
  injection Hi as ->. reflexivity.
Qed.

Lemma actionKey_inj (cid a b : jsstring) :
  actionKey cid a = actionKey cid b -> a = b.
Proof.
  unfold actionKey. intros H.
  apply app_inv_head in H. apply app_inv_head in H. exact H.
Qed.

(** The key under which an action is stored. *)
Lemma storeActions_other (l : list Action) :
  forall (m : gmap jsstring Action) (k : jsstring),
    Forall (fun a => default [] (id a) <> k) l ->
    storeActions l m !! k = m !! k.
Proof.
  unfold storeActions.
  induction l as [|x l IH]; intros m k Hk; simpl; [reflexivity|].
  inversion Hk as [|? ? Hx Hl]; subst.
  rewrite IH by exact Hl. apply lookup_insert_ne. exact Hx.
Qed.

Lemma storeActions_stored (l : list Action) :
  NoDup (map (fun a => default [] (id a)) l) ->
  forall (m : gmap jsstring Action) (a : Action),
    In a l -> storeActions l m !! default [] (id a) = Some a.
Proof.
  induction l as [|x l IH]; intros Hnd m a Hin; [destruct Hin|].
  simpl in Hnd. apply NoDup_cons in Hnd as [Hx Hnd].
  change (storeActions (x :: l) m)
    with (storeActions l (<[default [] (id x) := x]> m)).
  destruct Hin as [->|Hin]; [|apply IH; assumption].
  rewrite storeActions_other; [apply lookup_insert_eq|].
  apply Forall_forall. intros y Hy Heq. apply Hx.
  rewrite <- Heq. apply list_elem_of_fmap. exists y. split; [reflexivity|exact Hy].
Qed.

Lemma storeActions_twice (l : list Action) (m : gmap jsstring Action) :
  NoDup (map (fun a => default [] (id a)) l) ->
  storeActions l (storeActions l m) = storeActions l m.
Proof.
  intros Hnd. apply map_eq. intros k.
  destruct (decide (k ∈ map (fun a => default [] (id a)) l)) as [Hk|Hk].
  - apply list_elem_of_fmap in Hk as (a & -> & Ha).
    apply list_elem_of_In in Ha.
    rewrite !storeActions_stored by assumption. reflexivity.
  - assert (Forall (fun a => default [] (id a) <> k) l) as Hall.
    { apply Forall_forall. intros a Ha Heq. apply Hk.
      rewrite <- Heq. apply list_elem_of_fmap. exists a. split; [reflexivity|exact Ha]. }
    rewrite !storeActions_other by exact Hall. reflexivity.
Qed.

Lemma stored_ids (cid : jsstring) (acts : list Action) (i : nat) :
  map (fun a => default [] (id a)) (imap (withId cid) acts) !! i
  = (fun _ => actionKey cid (showNat i)) <$> acts !! i.
Proof.
  change (map (fun a => default [] (id a)) (imap (withId cid) acts))
    with ((fun a => default [] (id a)) <$> imap (withId cid) acts).
  rewrite list_lookup_fmap, list_lookup_imap.
  destruct (acts !! i); reflexivity.
Qed.

Lemma stored_ids_NoDup (cid : jsstring) (acts : list Action) :
  NoDup (map (fun a => default [] (id a)) (imap (withId cid) acts)).
Proof.
  apply NoDup_alt. intros i j k Hi Hj.
  rewrite stored_ids in Hi, Hj.
  destruct (acts !! i); [|discriminate].
  destruct (acts !! j); [|discriminate].
  simpl in Hi, Hj. injection Hi as <-. injection Hj as Hj.
  apply actionKey_inj, showNat_inj in Hj. symmetry. exact Hj.
Qed.

Lemma saveCase_actionsMem (cid : jsstring) (data : CaseData) (w : World) :
  actionsMem (fst (saveCase cid data w))
  = storeActions (imap (withId cid) (actions data)) (actionsMem w).
Proof. reflexivity. Qed.

Lemma saveCase_summaryMem (cid : jsstring) (data : CaseData) (w : World) :
  summaryMem (fst (saveCase cid data w))
  = <[cid := flat data]> (summaryMem w).
Proof. reflexivity. Qed.

(** X9: what [getCase] leaves in the two stores when it saves a case.
    The summary store maps the case id to the flat fields of the case and
    keeps the rows of the other cases.  The actions store maps, for each
    action at index [i], the key made of the case id, a dash and [i] to
    that action with its id set, and keeps every row under another key,
    among them the rows of an earlier fetch of the same case whose index
    is beyond the new list. *)
Theorem saveCase_stores (cid : jsstring) (data : CaseData) (w : World) :
  let w' := fst (saveCase cid data w) in
  summaryMem w' !! cid = Some (flat data)
  /\ (forall k, k <> cid -> summaryMem w' !! k = summaryMem w !! k)
  /\ (forall i a,
        actions data !! i = Some a ->
        actionsMem w' !! actionKey cid (showNat i) = Some (withId cid i a))
  /\ (forall k,
        (forall i, (i < length (actions data))%nat ->
                   k <> actionKey cid (showNat i)) ->
        actionsMem w' !! k = actionsMem w !! k).
Proof.
  cbv zeta. rewrite saveCase_summaryMem, saveCase_actionsMem.
  split; [apply lookup_insert_eq|].
  split; [intros k Hk; apply lookup_insert_ne; congruence|].
  split.
  - intros i a Hi.
    assert (imap (withId cid) (actions data) !! i = Some (withId cid i a)) as Hs
      by (rewrite list_lookup_imap, Hi; reflexivity).
    apply (storeActions_stored _ (stored_ids_NoDup cid (actions data))
             (actionsMem w) (withId cid i a)).
    apply list_elem_of_In. eapply list_elem_of_lookup_2. exact Hs.
  - intros k Hk. apply storeActions_other.
    apply Forall_forall. intros a Ha Heq.
    apply list_elem_of_lookup in Ha as [i Hi].
    rewrite list_lookup_imap in Hi.
    destruct (actions data !! i) as [b|] eqn:Eb; [|discriminate].
    simpl in Hi. injection Hi as <-.
    apply (Hk i); [eapply lookup_lt_Some; exact Eb|].
    symmetry. exact Heq.
Qed.

Lemma saveCase_stores_witness :
  let data := mkCaseData case4 [] [] [] [] [] [] [] [caseFiled; badDated] in
  let stale := mkAction None None None None None None
                        (Some (actionKey case4 (js "5"))) in
  let w := mkWorld [] ∅ {[actionKey case4 (js "5") := stale]} [] in
  actionsMem (fst (saveCase case4 data w)) !! actionKey case4 (showNat 1)
  = Some (withId case4 1 badDated)
  /\ actionsMem (fst (saveCase case4 data w)) !! actionKey case4 (js "5")
     = Some stale.
Proof.
  cbv zeta. split.
  - apply (proj1 (proj2 (proj2 (saveCase_stores case4 _ _)))). reflexivity.
  - etransitivity.
    + apply (proj2 (proj2 (proj2 (saveCase_stores case4 _ _)))).
      intros i Hi. simpl in Hi.
      destruct i as [|[|i]]; [vm_compute; discriminate
                             |vm_compute; discriminate|lia].
    + vm_compute. reflexivity.
Defined.

(** X10: saving the same case twice leaves both stores as after the first
    time. *)
Theorem saveCase_idempotent (cid : jsstring) (data : CaseData) (w : World) :
  let w1 := fst (saveCase cid data w) in
  let w2 := fst (saveCase cid data w1) in
  summaryMem w2 = summaryMem w1 /\ actionsMem w2 = actionsMem w1.
Proof.
  cbv zeta. rewrite !saveCase_summaryMem, !saveCase_actionsMem. split.
  - apply insert_insert_eq.
  - apply storeActions_twice, stored_ids_NoDup.
Qed.

(** X11: the rows of the CSV whose column is empty are skipped without
    any effect: the batch run is the run over the rows that have a
    value. *)
Theorem getCasesLoop_skips_empty
        (formatDate : jsstring -> jsstring) (cheerio : jsstring -> Page)
        (network : list Event -> Request -> Reply) (cfg : Config)
        (rows : list jsstring) (w : World) :
  getCasesLoop formatDate cheerio network cfg rows w
  = getCasesLoop formatDate cheerio network cfg (List.filter truthy rows) w.
Proof.
  revert w. induction rows as [|row rows IH]; intros w; [reflexivity|].
  simpl. destruct (truthy row) eqn:Hrow; [|apply IH].
  simpl. rewrite Hrow.
  destruct (getCase formatDate cheerio network cfg Batch row w)
    as [[w1 pr] ending].
  destruct pr; [reflexivity|apply IH|reflexivity].
Qed.

(** X12: after [downloadAction] the marker of the attachment is false
    when the download was resolved and true when it was rejected, and the
    markers of all other attachments are as before. *)
Theorem downloadAction_marker_after
        (network : list Event -> Request -> Reply) (cfg : Config)
        (cid href aid : jsstring) (acts : list Action) (w : World) :
  let r := downloadAction network cfg cid href aid acts w in
  loadMarkers (fst r) PActionDownloads
  = <[actionKey cid aid :=
        match snd r with Resolved _ => false | _ => true end]>
      (loadMarkers w PActionDownloads).
Proof.
  cbv zeta. unfold downloadAction.
  assert (loadMarkers (fst (downloadActionStart cfg cid href aid acts w))
                      PActionDownloads
          = <[actionKey cid aid := true]> (loadMarkers w PActionDownloads)
          /\ actionsDownloads (snd (downloadActionStart cfg cid href aid acts w))
             = <[actionKey cid aid := true]> (loadMarkers w PActionDownloads))
    as [Hm Hd].
  { unfold downloadActionStart. cbn [fst snd]. split; reflexivity. }
  destruct (downloadActionStart cfg cid href aid acts w) as [w1 d].
  cbn [fst snd] in Hm, Hd.
  unfold downloadActionCallback.
  destruct (network _ _) as [e|st body]; [exact Hm|].
  destruct (300 <=? st)%Z; [exact Hm|].
  cbn [fst snd]. rewrite readFile_markers_after_attachment, Hd.
  apply insert_insert_eq.
Qed.

(** ** Properties of the calendar script *)

Lemma calendar_rowOf_length (heading : jsstring) (rows : list (list jsstring)) :
  length (omap (Calendar.rowOf heading) rows)
  = length (List.filter (fun tds => truthy (cell tds 5)) rows).
Proof.
  induction rows as [|tds rows IH]; [reflexivity|].
  cbn [omap list_omap List.filter]. unfold Calendar.rowOf at 1.
  destruct (truthy (cell tds 5)); cbn [negb length]; rewrite IH; reflexivity.
Qed.

Lemma calendar_tableRows_length (t : Calendar.Table) :
  length (Calendar.tableRows t)
  = length (List.filter (fun tds => truthy (cell tds 5)) (snd t)).
Proof. apply calendar_rowOf_length. Qed.

(** X13: every hearing written by the calendar script has a case number
    that is not empty, taken from the sixth cell of its row, and carries
    the trimmed heading of the table the row is in. *)
Theorem calendar_rows_have_case
        (tables : list Calendar.Table) (h : Calendar.Hearing) :
  In h (Calendar.extract tables) ->
  truthy (Calendar.caseNumber h) = true
  /\ exists heading rows tds,
       In (heading, rows) tables /\ In tds rows
       /\ Calendar.ctrm h = trim heading
       /\ Calendar.caseNumber h = cell tds 5
       /\ Calendar.name h = cell tds 0.
Proof.
  unfold Calendar.extract. rewrite in_flat_map.
  intros ([heading rows] & Ht & Hh).
  unfold Calendar.tableRows in Hh. simpl in Hh.
  apply list_elem_of_In, list_elem_of_omap in Hh as (tds & Htds & Hrow).
  unfold Calendar.rowOf in Hrow.
  destruct (truthy (cell tds 5)) eqn:Hc; simpl in Hrow; [|discriminate].
  injection Hrow as <-. simpl. split; [exact Hc|].
  exists heading, rows, tds.
  split; [exact Ht|]. split; [apply list_elem_of_In, Htds|].
  repeat split.
Qed.

Lemma calendar_rows_have_case_witness :
  truthy (js "CR1900004") = true.
Proof.
  apply (calendar_rows_have_case
           [(js " Courtroom 1 ",
             [[js "Doe"; js "1/2/2020"; js "9:00"; js "Trial"; js "State v. Doe";
               js " CR1900004 "];
              [js "Roe"; js "1/2/2020"; js "9:30"; js "Plea"; js "State v. Roe"]])]
           (Calendar.mkHearing (js "Courtroom 1") (js "Doe") (js "1/2/2020")
                               (js "9:00") (js "Trial") (js "State v. Doe")
                               (js "CR1900004"))).
  vm_compute. left. reflexivity.
Defined.

(** X14: the calendar script writes one hearing for each row whose sixth
    cell is not blank, and none for the other rows. *)
Theorem calendar_rows_count (tables : list Calendar.Table) :
  length (Calendar.extract tables)
  = length (List.filter (fun tds => truthy (cell tds 5))
                        (Calendar.allRows tables)).
Proof.
  unfold Calendar.extract, Calendar.allRows.
  induction tables as [|t tables IH]; [reflexivity|].
  simpl. rewrite List.filter_app, !length_app, IH, calendar_tableRows_length.
  reflexivity.
Qed.

(** ** The requests of a fetch *)

Lemma continues_refl (P : Request -> Prop) (w : World) : continues P w w.
Proof. exists []. split; [symmetry; apply app_nil_r|constructor]. Qed.

Lemma continues_trans (P : Request -> Prop) (w1 w2 w3 : World) :
  continues P w1 w2 -> continues P w2 w3 -> continues P w1 w3.
Proof.
  intros (t1 & H1 & F1) (t2 & H2 & F2). exists (t1 ++ t2).
  split; [rewrite H2, H1; symmetry; apply app_assoc|].
  rewrite requests_app. apply Forall_app. split; assumption.
Qed.

Lemma continues_events (P : Request -> Prop) (w w' : World) (t : list Event) :
  trace w' = trace w ++ t -> Forall P (requests t) -> continues P w w'.
Proof. intros H F. exists t. split; assumption. Qed.

Section RequestFacts.

Variable formatDate : jsstring -> jsstring.
Variable cheerio : jsstring -> Page.
Variable network : list Event -> Request -> Reply.
Variable cfg : Config.

Lemma downloadActionCallback_trace (cid href aid : jsstring)
      (d : ActionDownload) (w : World) :
  exists t,
    trace (fst (downloadActionCallback network cid href aid d w)) = trace w ++ t
    /\ requests t = [].
Proof.
  unfold downloadActionCallback.
  destruct (network _ _) as [e|st body];
    [exists []; split; [symmetry; apply app_nil_r|reflexivity]|].
  destruct (300 <=? st)%Z;
    [exists []; split; [symmetry; apply app_nil_r|reflexivity]|].
  cbn [fst]. unfold writeFileSync. cbn [trace].
  eexists. rewrite <- app_assoc. split; reflexivity.
Qed.

Lemma isLinkRequest_action (cid href aid : jsstring) (w : World) :
  isLinkRequest (actionRequestOf cfg cid href aid w).
Proof. exists href. reflexivity. Qed.

Lemma downloadImages_continues {A} (caller : Caller) (pr : Promise A)
      (cid : jsstring) (acts : list Action) (links : list (option jsstring)) :
  forall w,
    continues isLinkRequest w
      (fst (downloadImages network cfg caller pr cid acts links w)).
Proof.
  induction links as [|a rest IH]; intros w; [apply continues_refl|].
  rewrite downloadImages_cons.
  destruct (a ≫= _) as [[href aid]|]; [|apply continues_refl].
  pose proof (downloadActionStart_trace cfg cid href aid acts w) as Hs.
  destruct (downloadActionStart cfg cid href aid acts w) as [w1 d].
  cbn [fst] in Hs.
  assert (continues isLinkRequest w w1) as H1.
  { eapply continues_events; [exact Hs|].
    rewrite requests_actionStartEvents.
    constructor; [apply isLinkRequest_action|constructor]. }
  destruct (exitsWhileWaiting caller pr); [exact H1|].
  destruct (downloadActionCallback_trace cid href aid d w1) as (t & Ht & Hr).
  destruct (downloadActionCallback network cid href aid d w1) as [w2 res].
  cbn [fst] in Ht. cbv beta iota zeta.
  eapply continues_trans; [exact H1|].
  eapply continues_trans;
    [eapply continues_events; [exact Ht|rewrite Hr; constructor]|].
  eapply continues_trans; [|apply IH].
  destruct res; unfold log, emit;
    (eapply continues_events; [cbn [trace]; rewrite <- ?app_assoc; reflexivity
                              |constructor]).
Qed.

Lemma getCaseCallback_continues (caller : Caller) (cid : jsstring)
      (cd : gmap jsstring bool) (req : Request) (w : World) :
  continues isLinkRequest w
    (fst (fst (getCaseCallback formatDate cheerio network cfg
                 caller cid cd req w))).
Proof.
  unfold getCaseCallback.
  destruct (network (trace w) req) as [e|st body].
  { cbn [fst]. eapply continues_events; [reflexivity|constructor]. }
  match goal with
  | |- context [downloadImages network cfg caller ?pr cid ?acts ?links ?w2] =>
      pose proof (downloadImages_continues caller pr cid acts links w2) as Hd;
      assert (continues isLinkRequest w w2) as Hw2
        by (unfold logBanner, log, emit, writeFileSync;
            destruct (hasBanner (cheerio body)); cbn [trace];
            (eapply continues_events;
             [rewrite <- ?app_assoc; reflexivity|constructor]));
      pose proof (continues_trans _ _ _ _ Hw2 Hd) as H; clear Hw2 Hd;
      destruct (downloadImages network cfg caller pr cid acts links w2)
        as [w3 ending]
  end.
  cbn [fst] in H.
  destruct ending; [|exact H|exact H].
  match goal with
  | |- context [saveCase cid ?data w3] =>
      pose proof (saveCase_extends cid data w3) as [t Ht];
      pose proof (saveCase_written cid data w3) as Hw;
      assert (requests t = []) as Hr;
      [|destruct (saveCase cid data w3) as [w4 data']]
  end.
  { unfold saveCase, writeFileSync in Ht. cbn [fst trace] in Ht.
    rewrite <- !app_assoc in Ht. apply app_inv_head in Ht. subst t.
    reflexivity. }
  cbn [fst] in Ht |- *.
  eapply continues_trans; [exact H|].
  eapply continues_events; [exact Ht|rewrite Hr; constructor].
Qed.

End RequestFacts.

Lemma markerState_marked (w : World) (p : Path) (key : jsstring) (set : bool) :
  markerState w p key set -> marked (loadMarkers w p) key = set.
Proof.
  unfold markerState, loadMarkers, marked.
  destruct set.
  - intros (m & -> & ->). reflexivity.
  - intros [->|(m & -> & Hm)]; [reflexivity|].
    destruct (m !! key) as [[|]|]; [contradiction|reflexivity|reflexivity].
Qed.

(** C5: when the marker file of the cases holds [true] for the case id at
    the start of [getCase], every request that the fetch sends to the
    cases URL carries a time-to-live of zero, whatever the configured
    time, and when the file does not hold [true] for it (or does not
    exist) it carries the configured time-to-live; unless the fetch is
    skipped by [--new], that request is the first one issued.  In the
    same way the one request of [downloadAction] carries zero when the
    marker file of the attachments holds [true] for the key made of the
    case id and the attachment id, and the configured time otherwise. *)
Theorem fetch_ttl
        (formatDate : jsstring -> jsstring) (cheerio : jsstring -> Page)
        (network : list Event -> Request -> Reply) (cfg : Config)
        (caller : Caller) (cid href aid : jsstring) (acts : list Action)
        (w : World) (set aset : bool) :
  (markerState w PCaseDownloads cid set ->
   exists t,
     trace (fst (fst (getCase formatDate cheerio network cfg caller cid w)))
     = trace w ++ t
     /\ Forall (fun q => url q = CasesUrl ->
                         q = mkRequest (if set then 0%Z else TTL cfg)
                                       CasesUrl (Some (caseForm cid)))
               (requests t)
     /\ (argvNew cfg && existsSync w (PRawHtml cid) = false ->
         exists pre post,
           t = pre
               ++ EvRequest (mkRequest (if set then 0%Z else TTL cfg)
                                       CasesUrl (Some (caseForm cid)))
               :: post
           /\ requests pre = []))
  /\ (markerState w PActionDownloads (actionKey cid aid) aset ->
      exists pre post,
        trace (fst (downloadAction network cfg cid href aid acts w))
        = trace w ++ pre
          ++ EvRequest (mkRequest (if aset then 0%Z else TTL cfg)
                                  (LinkUrl href) None)
          :: post
        /\ requests pre = [] /\ requests post = []).
Proof.
  split.
  - intros Hset. apply markerState_marked in Hset.
    destruct (argvNew cfg && existsSync w (PRawHtml cid)) eqn:Hnew.
    + apply andb_prop in Hnew as [Hn He].
      rewrite getCase_skipped by assumption. cbn [fst].
      exists ((if marked (loadMarkers w PCaseDownloads) cid
               then [EvLog (LogCaseNotFinished cid)] else [])
              ++ [EvWrite PCaseDownloads
                    (CMarkers (<[cid := true]> (loadMarkers w PCaseDownloads)));
                  EvLog (LogNewExists cid)]).
      split.
      * unfold log, emit, writeFileSync.
        destruct (marked (loadMarkers w PCaseDownloads) cid); cbn [trace];
          rewrite <- ?app_assoc; reflexivity.
      * split; [|discriminate].
        destruct (marked (loadMarkers w PCaseDownloads) cid); constructor.
    + rewrite getCase_started by exact Hnew.
      destruct (getCaseCallback_continues formatDate cheerio network cfg caller
                  cid (<[cid := true]> (loadMarkers w PCaseDownloads))
                  (caseRequest cfg cid w) (caseStarted cfg cid w))
        as (post & Hpost & Hlinks).
      exists (caseStartEvents cfg cid w ++ post).
      split; [rewrite Hpost; unfold caseStarted; cbn [trace];
              symmetry; apply app_assoc|].
      assert (caseRequest cfg cid w
              = mkRequest (if set then 0%Z else TTL cfg) CasesUrl
                          (Some (caseForm cid))) as Hreq
        by (unfold caseRequest; rewrite Hset; reflexivity).
      split.
      * rewrite requests_app, requests_caseStartEvents, Hreq.
        constructor; [intros _; reflexivity|].
        eapply Forall_impl; [exact Hlinks|].
        intros q [h Hq] Hc. rewrite Hq in Hc. discriminate.
      * intros _. unfold caseStartEvents. rewrite Hreq.
        exists ((if marked (loadMarkers w PCaseDownloads) cid
                 then [EvLog (LogCaseNotFinished cid)] else [])
                ++ [EvWrite PCaseDownloads
                      (CMarkers (<[cid := true]> (loadMarkers w PCaseDownloads)));
                    EvLog (LogGetting cid)]), post.
        split; [rewrite <- !app_assoc; reflexivity|].
        destruct (marked (loadMarkers w PCaseDownloads) cid); reflexivity.
  - intros Hset. apply markerState_marked in Hset.
    unfold downloadAction.
    pose proof (downloadActionStart_trace cfg cid href aid acts w) as Hs.
    destruct (downloadActionStart cfg cid href aid acts w) as [w1 d].
    cbn [fst] in Hs.
    destruct (downloadActionCallback_trace network cid href aid d w1)
      as (post & Hpost & Hr).
    exists ((if aset then [EvLog (LogActionNotFinished aid)] else [])
            ++ [EvWrite PActionDownloads
                  (CMarkers (<[actionKey cid aid := true]>
                               (loadMarkers w PActionDownloads)))]),
           post.
    rewrite Hpost, Hs. unfold actionStartEvents, actionRequestOf.
    rewrite Hset.
    split; [rewrite <- !app_assoc; reflexivity|].
    split; [destruct aset; reflexivity|exact Hr].
Qed.

Lemma fetch_ttl_witness :
  (exists t,
     trace (fst (fst (getCase Moment.format_mdy exampleCheerio exampleNetwork
                        exampleConfig Single case4 interruptedWorld)))
     = trace interruptedWorld ++ t
     /\ Forall (fun q => url q = CasesUrl ->
                         q = mkRequest 0 CasesUrl (Some (caseForm case4)))
               (requests t))
  /\ (exists t,
        trace (fst (fst (getCase Moment.format_mdy exampleCheerio
                           exampleNetwork exampleConfig Single case4
                           emptyWorld)))
        = trace emptyWorld ++ t
        /\ Forall (fun q => url q = CasesUrl ->
                            q = mkRequest 86400000 CasesUrl
                                          (Some (caseForm case4)))
                  (requests t)).
Proof.
  split.
  - destruct (proj1 (fetch_ttl Moment.format_mdy exampleCheerio exampleNetwork
                       exampleConfig Single case4 [] [] [] interruptedWorld
                       true false)) as (t & Ht & Hall & _).
    + exists {[case4 := true]}. split; vm_compute; reflexivity.
    + exists t. split; [exact Ht|exact Hall].
  - destruct (proj1 (fetch_ttl Moment.format_mdy exampleCheerio exampleNetwork
                       exampleConfig Single case4 [] [] [] emptyWorld
                       false false)) as (t & Ht & Hall & _).
    + left. vm_compute. reflexivity.
    + exists t. split; [exact Ht|exact Hall].
Defined.


(** ** The dates of the actions returned *)

Section OpenedFacts.

Variable formatDate : jsstring -> jsstring.
Variable cid : jsstring.

Lemma parsePart_openedBy (acts : list Action) (acc : Action) (p : jsstring)
      (tok ty : jsstring) :
  openedBy p = Some (tok, ty) ->
  parsePart formatDate cid (acts, acc) p
  = (acts ++ [acc],
     mkAction (Some cid) (Some (formatDate tok)) (Some ty) None None None None).
Proof.
  unfold openedBy, parsePart.
  destruct (truthy (trim p)); [|discriminate]. simpl.
  destruct (Regex.match_first _ Patterns.beginningRe _) as [b|];
    [|discriminate].
  intros [= <- <-]. reflexivity.
Qed.

Lemma parsePart_not_opened (acts : list Action) (acc : Action) (p : jsstring) :
  openedBy p = None ->
  exists acc',
    parsePart formatDate cid (acts, acc) p = (acts, acc')
    /\ dateAndType acc' = dateAndType acc.
Proof.
  unfold openedBy, parsePart.
  destruct (truthy (trim p)); simpl.
  - destruct (Regex.match_first _ Patterns.beginningRe _) as [b|];
      [discriminate|]. intros _.
    destruct (Regex.match_first _ Patterns.initiatedRe _);
      [|destruct (Regex.match_first _ Patterns.imageRe _)];
      (eexists; split; reflexivity).
  - intros _. exists acc. split; reflexivity.
Qed.

Lemma hasDate_dateAndType (a b : Action) :
  dateAndType a = dateAndType b -> hasDate a = hasDate b.
Proof. unfold dateAndType, hasDate. intros [= -> _]. reflexivity. Qed.

(** With the accumulator counted in, the dated actions after the loop are
    those before it followed by one action for each chunk that opens
    one. *)
Lemma fold_parsePart_opened (parts : list jsstring) :
  (forall tok, truthy (formatDate tok) = true) ->
  forall acts acc,
    let st := fold_left (parsePart formatDate cid) parts (acts, acc) in
    map dateAndType (List.filter hasDate (fst st ++ [snd st]))
    = map dateAndType (List.filter hasDate (acts ++ [acc]))
      ++ map (fun o => (Some (formatDate (fst o)), Some (snd o)))
             (omap openedBy parts).
Proof.
  intros Hfmt. cbv zeta.
  induction parts as [|p parts IH]; intros acts acc.
  - simpl. symmetry. apply app_nil_r.
  - cbn [fold_left omap list_omap].
    destruct (openedBy p) as [[tok ty]|] eqn:Ho.
    + rewrite (parsePart_openedBy acts acc p tok ty Ho), IH.
      rewrite (List.filter_app hasDate (acts ++ [acc])), map_app.
      rewrite <- app_assoc. f_equal.
      simpl. unfold hasDate at 1. simpl. rewrite Hfmt. reflexivity.
    + destruct (parsePart_not_opened acts acc p Ho) as (acc' & -> & Hd).
      rewrite IH. f_equal.
      rewrite !List.filter_app, !map_app. f_equal.
      simpl. rewrite (hasDate_dateAndType _ _ Hd).
      destruct (hasDate acc); [simpl; rewrite Hd|]; reflexivity.
Qed.

End OpenedFacts.

Lemma format_mdy_dateText (tok : jsstring) :
  Moment.format_mdy tok = dateText tok.
Proof.
  unfold Moment.format_mdy, dateText.
  destruct (Moment.parse_mdy tok) as [[[y m] d]|]; reflexivity.
Qed.

(** C7, as amended: the actions that [parseActions] returns are, in
    order, the actions opened by the chunks that begin with a date token,
    up to the last such chunk, of which nothing is said here.  The date
    of each is the ISO text of its token when the token is a calendar
    date and the text [Invalid date] when it is not, so an action whose
    date does not parse is returned like the others; the date and the
    type of an action come from its own chunk alone, whatever the other
    chunks hold. *)
Theorem parseActions_returns_opened (text cid : jsstring) :
  exists last,
    (length last <= 1)%nat
    /\ map dateAndType (parseActions Moment.format_mdy text cid) ++ last
       = map (fun o => (Some (dateText (fst o)), Some (snd o)))
             (omap openedBy (chunks text)).
Proof.
  rewrite parseActions_chunks. unfold parseChunks.
  pose proof (fold_parsePart_opened Moment.format_mdy cid (chunks text)
                format_mdy_truthy [] emptyAction) as H.
  cbv zeta in H.
  destruct (fold_left (parsePart Moment.format_mdy cid) (chunks text)
                      ([], emptyAction)) as [acts acc].
  cbn [fst snd] in H |- *.
  rewrite List.filter_app, map_app in H.
  exists (map dateAndType (List.filter hasDate [acc])).
  split; [simpl; destruct (hasDate acc); simpl; lia|].
  rewrite H. simpl.
  apply map_ext. intros [tok ty]. simpl.
  rewrite format_mdy_dateText. reflexivity.
Qed.

(** On the narrative with the bad date, the chunks open two actions and
    the one dated [Invalid date] is the one returned. *)
Lemma parseActions_returns_opened_example :
  map (fun o => (Some (dateText (fst o)), Some (snd o)))
      (omap openedBy (chunks narrativeBadDate))
  = [(Some (js "Invalid date"), Some (js "Bad"));
     (Some (js "2020-01-05"), Some (js "Answer Filed"))]
  /\ map dateAndType
         (parseActions Moment.format_mdy narrativeBadDate exampleCaseId)
     = [(Some (js "Invalid date"), Some (js "Bad"))].
Proof. split; vm_compute; reflexivity. Qed.

(** ** The loop over the attachment links *)



(** ** The parser and the attachment downloader together *)

Lemma find_first {A} (f : A -> bool) (l : list A) :
  match List.find f l with
  | Some a => exists l1 l2,
                l = l1 ++ a :: l2 /\ f a = true
                /\ Forall (fun x => f x = false) l1
  | None => Forall (fun x => f x = false) l
  end.
Proof.
  induction l as [|x l IH]; simpl; [constructor|].
  destruct (f x) eqn:Hx.
  - exists [], l. split; [reflexivity|]. split; [exact Hx|constructor].
  - destruct (List.find f l) as [a|].
    + destruct IH as (l1 & l2 & -> & Ha & Hl1).
      exists (x :: l1), l2. split; [reflexivity|].
      split; [exact Ha|]. constructor; assumption.
    + constructor; assumption.
Qed.

(** X15: when [downloadAction] is given the actions returned by
    [parseActions] and its request succeeds, the last thing it does is
    write the body of the reply to the attachment file of the case named
    by a prefix, a dash, the case id, an underscore, the attachment id
    and [.pdf]; the prefix is the date, never empty, of the first
    returned action that carries the image id, and [unknown-date-] only
    when no returned action carries it. *)
Theorem downloadAction_names_file
        (formatDate : jsstring -> jsstring)
        (network : list Event -> Request -> Reply) (cfg : Config)
        (text cid href aid : jsstring) (w : World) :
  let acts := parseActions formatDate text cid in
  let r := downloadAction network cfg cid href aid acts w in
  snd r = Resolved tt ->
  exists prefix statusCode body,
    network (trace w ++ actionStartEvents cfg cid href aid w)
            (actionRequestOf cfg cid href aid w)
    = ReplyOk statusCode body
    /\ (statusCode < 300)%Z
    /\ last (trace (fst r))
       = Some (EvWrite
                 (PAttachment cid
                    (prefix ++ js "-" ++ cid ++ js "_" ++ aid ++ js ".pdf"))
                 (CBody body))
    /\ ((exists before a after,
           acts = before ++ a :: after
           /\ Forall (fun x => image x <> Some aid) before
           /\ image a = Some aid
           /\ date a = Some prefix /\ prefix <> [])
        \/ (Forall (fun x => image x <> Some aid) acts
            /\ prefix = js "unknown-date-")).
Proof.
  cbv zeta. unfold downloadAction.
  pose proof (downloadActionStart_trace cfg cid href aid
                (parseActions formatDate text cid) w) as Hs.
  assert (forall x, In x (parseActions formatDate text cid) ->
                    (bool_decide (caseId x = Some cid)
                     && bool_decide (image x = Some aid)) = false ->
                    image x <> Some aid) as Hno.
  { intros x Hin Hf Hi.
    destruct (parseActions_dated formatDate cid
                (fun y => caseId y = Some cid) text) with x
      as [_ Hc]; [reflexivity|intros y i m o Hy; exact Hy|exact Hin|].
    rewrite Hc, Hi in Hf.
    rewrite !bool_decide_eq_true_2 in Hf by reflexivity. discriminate. }
  pose proof (find_first
                (fun a => bool_decide (caseId a = Some cid)
                          && bool_decide (image a = Some aid))
                (parseActions formatDate text cid)) as Hfind.
  unfold downloadActionStart in Hs |- *. cbn [fst snd] in Hs |- *.
  unfold downloadActionCallback. cbn [actionRequest actionsDownloads action].
  rewrite Hs. fold (actionRequestOf cfg cid href aid w).
  destruct (network _ _) as [e|st body]; [discriminate|].
  destruct (Z.leb_spec 300 st) as [Hge|Hlt]; [discriminate|].
  intros _. cbn [fst].
  destruct (List.find _ (parseActions formatDate text cid)) as [a|] eqn:Hf.
  - destruct Hfind as (l1 & l2 & Hsplit & Ha & Hl1).
    apply andb_prop in Ha as [_ Hi]. apply bool_decide_eq_true in Hi.
    destruct (parseActions_dated formatDate cid (fun _ => True) text) with a
      as [Hd _]; [intros; exact I|intros; exact I| |].
    { rewrite Hsplit. apply in_elt. }
    unfold hasDate in Hd.
    destruct (date a) as [d|] eqn:Hda; [|discriminate].
    exists d, st, body.
    split; [reflexivity|]. split; [exact Hlt|].
    split.
    + unfold writeFileSync. cbn [trace]. rewrite last_snoc.
      unfold attachmentName. rewrite Hda, Hd. reflexivity.
    + left. exists l1, a, l2.
      split; [exact Hsplit|].
      split.
      * apply Forall_forall. intros x Hx.
        apply Hno; [rewrite Hsplit; apply in_or_app; left;
                    apply list_elem_of_In; exact Hx|].
        rewrite Forall_forall in Hl1. apply Hl1. exact Hx.
      * split; [exact Hi|]. split; [exact Hda|].
        intros ->. discriminate.
  - exists (js "unknown-date-"), st, body.
    split; [reflexivity|]. split; [exact Hlt|].
    split.
    + unfold writeFileSync. cbn [trace]. rewrite last_snoc. reflexivity.
    + right. split; [|reflexivity].
      apply Forall_forall. intros x Hx.
      apply Hno; [apply list_elem_of_In; exact Hx|].
      rewrite Forall_forall in Hfind. apply Hfind. exact Hx.
Qed.

Lemma downloadAction_names_file_witness :
  last (trace (fst (downloadAction exampleNetwork exampleConfig exampleCaseId
                      (js "/doc?id=ab12&t=1") (js "ab12")
                      (parseActions Moment.format_mdy narrativeImage
                                    exampleCaseId)
                      emptyWorld)))
  = Some (EvWrite (PAttachment exampleCaseId
                     (js "2020-01-02-CR1912345_ab12.pdf"))
                  (CBody (js "%PDF"))).
Proof.
  destruct (downloadAction_names_file
              Moment.format_mdy exampleNetwork exampleConfig narrativeImage
              exampleCaseId (js "/doc?id=ab12&t=1") (js "ab12") emptyWorld)
    as (prefix & st & body & _ & _ & _ & _).
  - vm_compute. reflexivity.
  - vm_compute. reflexivity.
Defined.
